(** * pdfparser.js: load/parse orchestration and the shared binary buffer cache

    A shallow embedding of [class PDFParser] (src/pdfparser.js):
    - the JavaScript values and ordinary objects the class manipulates
      (property creation order, own-key enumeration, object spread);
    - the static fields [#nextId], [#maxBinBufferCount], [#binBuffer];
    - the private methods and the public [loadPDF] / [parseBuffer], written
      in a small state-and-exception monad over the instance, the statics and
      the trace of calls that leave the class;
    - the environment's moves: method calls, completion of a queued
      [fs.readFile], and events emitted by the parsing engine.

    Modelling conventions.
    - The numbers the class computes with are integers ([Z], [N]); its only
      arithmetic is [#nextId++] and [id % #maxBinBufferCount].  The
      post-increment is written with the rounding of IEEE doubles at 2^53
      (see [Number_increment]).  The modification time of a file is a number
      with a fractional part ([jsnumber]), of which the class only takes the
      decimal rendering.
    - [nodeUtil.p2jinfo] and [nodeUtil.verbosity] only log and are left out.
    - [_.has] of lodash reads its second argument as a property path
      ([Lodash.has]); [_.keys] gives the own enumerable string keys in the
      object's enumeration order.
    - Listeners of the [PDFParser] emitter itself belong to the caller; an
      [emit] is recorded in the trace together with the value the [data]
      getter returns while the listeners run. *)

From Stdlib Require Import List String Ascii ZArith NArith Bool Lia.
From Stdlib Require Import Permutation Sorted DecimalString DecimalPos DecimalZ.
From Stdlib.Strings Require Import Byte.
Import ListNotations.

Local Open Scope string_scope.
Local Open Scope list_scope.

(* ------------------------------------------------------------------ *)
(** ** JavaScript values and ordinary objects *)

Module JS.

(** [ToString] of an integer (plain decimal digits, as for every integer
    of magnitude below 10^21). *)
Definition Integer_toString (z : Z) : string :=
  NilZero.string_of_int (Z.to_int z).

(** A number by its decimal rendering: the integer part and the digits
    after the point ([Nil] when there are none).  [fs.Stats.mtimeMs] is a
    double with a fractional part on most file systems; the doubles of
    magnitude between 1 and 10^21 render this way. *)
Record jsnumber : Type := mkNumber {
  whole : Z;
  fraction : Decimal.uint
}.

Definition integer (z : Z) : jsnumber := mkNumber z Decimal.Nil.

Coercion integer : Z >-> jsnumber.
Bind Scope Z_scope with jsnumber.

(** [ToString] of a number. *)
Definition Number_toString (n : jsnumber) : string :=
  String.append (Integer_toString (whole n))
    (match NilEmpty.string_of_uint (fraction n) with
     | EmptyString => EmptyString
     | digits => String "." digits
     end).

(** Value of a decimal digit character. *)
Definition digit_value (c : ascii) : option N :=
  let n := N_of_ascii c in
  if ((48 <=? n) && (n <=? 57))%N then Some (n - 48)%N else None.

Fixpoint digits_value (s : string) (acc : N) : option N :=
  match s with
  | EmptyString => Some acc
  | String c r =>
      match digit_value c with
      | Some d => digits_value r (10 * acc + d)%N
      | None => None
      end
  end.

(** A property key is an array index when it is the canonical decimal
    rendering of an integer in [0, 2^32 - 2]. *)
Definition array_index (k : string) : option N :=
  match k with
  | EmptyString => None
  | String c r =>
      if Ascii.eqb c "0" && negb (String.eqb r EmptyString) then None
      else
        match digits_value k 0 with
        | Some n => if (n <=? 4294967294)%N then Some n else None
        | None => None
        end
  end.

Section Object.
Context {V : Type}.

(** An ordinary object with string keys: its own properties in creation
    order.  A well-formed object binds each key at most once ([wf]). *)
Definition object : Type := list (string * V).

Definition wf (o : object) : Prop := NoDup (map fst o).

(** [o[k]], [None] standing for a missing property. *)
Fixpoint get (o : object) (k : string) : option V :=
  match o with
  | [] => None
  | (k', v) :: r => if String.eqb k' k then Some v else get r k
  end.

(** [Object.prototype.hasOwnProperty.call(o, k)]. *)
Definition has (o : object) (k : string) : bool :=
  match get o k with Some _ => true | None => false end.

(** [o[k] = v]: an existing property keeps its place, a new one is
    created last. *)
Fixpoint set (o : object) (k : string) (v : V) : object :=
  match o with
  | [] => [(k, v)]
  | (k', v') :: r =>
      if String.eqb k' k then (k', v) :: r else (k', v') :: set r k v
  end.

(** [delete o[k]]. *)
Definition delete (o : object) (k : string) : object :=
  filter (fun e => negb (String.eqb (fst e) k)) o.

(** Own property enumeration order: array indices in ascending numeric
    order, then the other keys in creation order. *)
Definition indexed : Type := N * (string * V).

Definition index_le (x y : indexed) : Prop := (fst x <= fst y)%N.

Fixpoint insert_by_index (x : indexed) (l : list indexed) : list indexed :=
  match l with
  | [] => [x]
  | y :: r =>
      if (fst x <=? fst y)%N then x :: y :: r
      else y :: insert_by_index x r
  end.

Fixpoint sort_by_index (l : list indexed) : list indexed :=
  match l with
  | [] => []
  | x :: r => insert_by_index x (sort_by_index r)
  end.

Definition index_entry (e : string * V) : list indexed :=
  match array_index (fst e) with
  | Some n => [(n, e)]
  | None => []
  end.

Definition is_named (e : string * V) : bool :=
  match array_index (fst e) with
  | Some _ => false
  | None => true
  end.

Definition entries (o : object) : list (string * V) :=
  map snd (sort_by_index (flat_map index_entry o)) ++ filter is_named o.

(** [_.keys(o)] / [Object.keys(o)]. *)
Definition keys (o : object) : list string := map fst (entries o).

(** Copy a list of properties into [target], in order. *)
Definition assign (target : object) (props : list (string * V)) : object :=
  fold_left (fun o e => set o (fst e) (snd e)) props target.
End Object.

Arguments object : clear implicits.

(** The values that reach the class.  [VBuffer] is a Node [Buffer];
    [VObj] is a plain object; [VInstance] is an object with own properties
    and the methods (by name) that it inherits from its class. *)
#[warnings="-register-all"] Inductive value : Type :=
| VUndefined
| VNull
| VBool (b : bool)
| VNum (z : Z)
| VStr (s : string)
| VBuffer (bytes : list byte)
| VObj (props : object value)
| VInstance (methods : list string) (props : object value).

(** [ToBoolean]. *)
Definition truthy (v : value) : bool :=
  match v with
  | VUndefined | VNull => false
  | VBool b => b
  | VNum z => negb (z =? 0)%Z
  | VStr s => negb (String.eqb s EmptyString)
  | VBuffer _ | VObj _ | VInstance _ _ => true
  end.

(** Whether [v.m] is a function: of the values above only the instances of
    a class have methods, and an own property of the same name hides the
    method. *)
Definition has_method (v : value) (m : string) : bool :=
  match v with
  | VInstance ms props => existsb (String.eqb m) ms && negb (has props m)
  | _ => false
  end.

(** [a || b]; [b] is a thunk since the right operand is evaluated only
    when the left one is falsy. *)
Definition or_else (a : value) (b : unit -> value) : value :=
  if truthy a then a else b tt.

(** Elements of an indexed exotic value as properties "0", "1", ... *)
Definition index_props {A : Type} (f : A -> value) (l : list A)
  : list (string * value) :=
  combine (map (fun i => Integer_toString (Z.of_nat i)) (seq 0 (List.length l)))
          (map f l).

(** The own enumerable properties copied by a spread element [...v]. *)
Definition own_enumerable (v : value) : list (string * value) :=
  match v with
  | VObj o | VInstance _ o => entries o
  | VStr s =>
      index_props (fun c => VStr (String c EmptyString)) (list_ascii_of_string s)
  | VBuffer bs =>
      index_props (fun b => VNum (Z.of_N (Byte.to_N b))) bs
  | VUndefined | VNull | VBool _ | VNum _ => []
  end.

(** The object literal [{...a, ...b}]. *)
Definition spread2 (a b : value) : value :=
  VObj (assign (assign [] (own_enumerable a)) (own_enumerable b)).

(** [x++] on a number holding a non-negative integer: the old value is the
    result, the new value is [x + 1] rounded to a double, so that 2^53 is a
    fixed point. *)
Definition Number_increment (x : N) : N :=
  if (x <? 2 ^ 53)%N then (x + 1)%N else x.

End JS.

Import JS.

(* ------------------------------------------------------------------ *)
(** ** lodash: [_.has] *)

(** Modelled from the library (lodash 4.17: [has], [hasPath], [castPath],
    [isKey], [stringToPath], [toKey], [baseHas]), which is not part of the
    sources: [_.has(object, path)] reads its second argument as a property
    path.  A string that is not itself a key of the object and that contains
    a dot or a bracket group is split into segments, and the answer is
    whether the segments can be followed from the object through own
    properties. *)
Module Lodash.

Definition dot : ascii := ".".
Definition lbracket : ascii := "[".
Definition rbracket : ascii := "]".
Definition backslash : ascii := "\".
Definition squote : ascii := "'".
Definition dquote : ascii := ascii_of_nat 34.
Definition minus : ascii := "-".

Definition is_digit (c : ascii) : bool :=
  let n := N_of_ascii c in ((48 <=? n) && (n <=? 57))%N.

(** [\w] *)
Definition is_word (c : ascii) : bool :=
  let n := N_of_ascii c in
  (((48 <=? n) && (n <=? 57)) || ((65 <=? n) && (n <=? 90)) ||
   ((97 <=? n) && (n <=? 122)) || (n =? 95))%N.

(** The characters [.] does not match. *)
Definition is_line_terminator (c : ascii) : bool :=
  let n := N_of_ascii c in ((n =? 10) || (n =? 13))%N.

Definition is_quote (c : ascii) : bool :=
  Ascii.eqb c dquote || Ascii.eqb c squote.

Definition is_separator (c : ascii) : bool :=
  Ascii.eqb c dot || Ascii.eqb c lbracket || Ascii.eqb c rbracket.

(** [reIsPlainProp = /^\w*$/] *)
Fixpoint reIsPlainProp (s : string) : bool :=
  match s with
  | EmptyString => true
  | String c r => is_word c && reIsPlainProp r
  end.

(** After an opening quote [q]: the body [(?:(?!q)[^\\]|\\.)*?] up to the
    closing quote, and what follows the closing quote.  A character other
    than the quote and the backslash is one unit, a backslash takes the
    next character with it, so the body ends at the first quote that is
    not escaped. *)
Fixpoint quoted (q : ascii) (s : string) : option (string * string) :=
  match s with
  | EmptyString => None
  | String c r =>
      if Ascii.eqb c q then Some (EmptyString, r)
      else if Ascii.eqb c backslash then
        match r with
        | EmptyString => None
        | String e r' =>
            if is_line_terminator e then None
            else match quoted q r' with
                 | Some (body, rest) => Some (String c (String e body), rest)
                 | None => None
                 end
        end
      else
        match quoted q r with
        | Some (body, rest) => Some (String c body, rest)
        | None => None
        end
  end.

(** After an opening bracket: [[^[\]]*\]], a group without brackets
    inside. *)
Fixpoint simple_group (s : string) : bool :=
  match s with
  | EmptyString => false
  | String c r =>
      if Ascii.eqb c rbracket then true
      else if Ascii.eqb c lbracket then false
      else simple_group r
  end.

(** After an opening bracket: a quoted body and the closing bracket; the
    body and what follows the group. *)
Definition quoted_group (s : string) : option (string * string) :=
  match s with
  | EmptyString => None
  | String q r =>
      if is_quote q then
        match quoted q r with
        | Some (body, String c rest) =>
            if Ascii.eqb c rbracket then Some (body, rest) else None
        | _ => None
        end
      else None
  end.

(** [reIsDeepProp = /\.|\[(?:[^[\]]*|(Q)(?:(?!\1)[^\\]|\\.)*?\1)\]/],
    where Q is the class of the two quote characters. *)
Fixpoint reIsDeepProp (s : string) : bool :=
  match s with
  | EmptyString => false
  | String c r =>
      Ascii.eqb c dot
      || (Ascii.eqb c lbracket
          && (simple_group r
              || match quoted_group r with Some _ => true | None => false end))
      || reIsDeepProp r
  end.

(** The longest prefix of characters satisfying [p], and the rest. *)
Fixpoint span (p : ascii -> bool) (s : string) : string * string :=
  match s with
  | EmptyString => (EmptyString, EmptyString)
  | String c r =>
      if p c then let (a, b) := span p r in (String c a, b)
      else (EmptyString, s)
  end.

(** After an opening bracket: [(-?\d+(?:\.\d+)?)\]]; the number and what
    follows. *)
Definition number_group (s : string) : option (string * string) :=
  let (sign, s1) :=
    match s with
    | String c r => if Ascii.eqb c minus then (String c EmptyString, r)
                    else (EmptyString, s)
    | EmptyString => (EmptyString, s)
    end in
  let (digits, s2) := span is_digit s1 in
  match digits, s2 with
  | EmptyString, _ => None
  | _, String c s3 =>
      if Ascii.eqb c rbracket then Some (String.append sign digits, s3)
      else if Ascii.eqb c dot then
        let (frac, s4) := span is_digit s3 in
        match frac, s4 with
        | EmptyString, _ => None
        | _, String c' rest =>
            if Ascii.eqb c' rbracket
            then Some (String.append sign
                         (String.append digits (String dot frac)), rest)
            else None
        | _, EmptyString => None
        end
      else None
  | _, EmptyString => None
  end.

(** [subString.replace(/\\(\\)?/g, '$1')] *)
Fixpoint unescape (s : string) : string :=
  match s with
  | EmptyString => EmptyString
  | String c r =>
      if Ascii.eqb c backslash then
        match r with
        | String e r' =>
            if Ascii.eqb e backslash then String backslash (unescape r')
            else unescape r
        | EmptyString => EmptyString
        end
      else String c (unescape r)
  end.

(** After an opening bracket: the second alternative of [rePropName]; the
    segment pushed for it and what follows the group. *)
Definition bracket_group (s : string) : option (string * string) :=
  match number_group s with
  | Some x => Some x
  | None =>
      match quoted_group s with
      | Some (body, rest) => Some (unescape body, rest)
      | None => None
      end
  end.

(** A dot or an empty pair of brackets. *)
Definition skip_separator (s : string) : option string :=
  match s with
  | String c r =>
      if Ascii.eqb c dot then Some r
      else if Ascii.eqb c lbracket then
        match r with
        | String c' r' => if Ascii.eqb c' rbracket then Some r' else None
        | EmptyString => None
        end
      else None
  | EmptyString => None
  end.

(** The lookahead [(?=(?:\.|\[\])(?:\.|\[\]|$))], third alternative of
    [rePropName]: an empty segment. *)
Definition empty_segment (s : string) : bool :=
  match skip_separator s with
  | Some EmptyString => true
  | Some r => match skip_separator r with Some _ => true | None => false end
  | None => false
  end.

(** The successive matches of
    [rePropName = /[^.[\]]+|\[(?:(-?\d+(?:\.\d+)?)|(Q)((?:(?!\2)[^\\]|\\.)*?)\2)\]|(?=(?:\.|\[\])(?:\.|\[\]|$))/g]
    (Q as above) from the start of [s], each with the segment pushed for it.  The search
    resumes after a match, one character further after an empty match or
    when nothing matches; [fuel] bounds the number of steps by the length
    of the string. *)
Fixpoint segments (fuel : nat) (s : string) : list string :=
  match fuel with
  | O => []
  | S fuel' =>
      match s with
      | EmptyString => []
      | String c r =>
          if negb (is_separator c) then
            let (run, rest) := span (fun x => negb (is_separator x)) s in
            run :: segments fuel' rest
          else
            match (if Ascii.eqb c lbracket then bracket_group r else None) with
            | Some (seg, rest) => seg :: segments fuel' rest
            | None =>
                if empty_segment s then EmptyString :: segments fuel' r
                else segments fuel' r
            end
      end
  end.

(** [stringToPath(string)] *)
Definition stringToPath (s : string) : list string :=
  (match s with
   | String c _ => if Ascii.eqb c dot then [EmptyString] else []
   | EmptyString => []
   end) ++ segments (S (String.length s)) s.

(** A canonical array index: zero, or digits that do not start with a
    zero. *)
Definition canonical_index (k : string) : option N :=
  match k with
  | EmptyString => None
  | String c r =>
      if Ascii.eqb c "0" && negb (String.eqb r EmptyString) then None
      else digits_value k 0
  end.

Definition index_below (k : string) (len : nat) : bool :=
  match canonical_index k with
  | Some n => (n <? N.of_nat len)%N
  | None => false
  end.

(** [object != null && hasOwnProperty.call(object, key)] ([baseHas]): the
    own properties of an object, the indices of a buffer, the indices and
    the length of a string; numbers and booleans have none. *)
Definition baseHas (v : value) (key : string) : bool :=
  match v with
  | VUndefined | VNull => false
  | VBool _ | VNum _ => false
  | VStr s => index_below key (String.length s) || String.eqb key "length"
  | VBuffer bs => index_below key (List.length bs)
  | VObj o | VInstance _ o => JS.has o key
  end.

(** [object[key]] for a key that [baseHas] has found. *)
Definition at_key (v : value) (key : string) : value :=
  match v with
  | VObj o | VInstance _ o =>
      match get o key with Some x => x | None => VUndefined end
  | VBuffer bs =>
      match canonical_index key with
      | Some n => match nth_error bs (N.to_nat n) with
                  | Some b => VNum (Z.of_N (Byte.to_N b))
                  | None => VUndefined
                  end
      | None => VUndefined
      end
  | VStr s =>
      if String.eqb key "length" then VNum (Z.of_nat (String.length s))
      else match canonical_index key with
           | Some n => match String.get (N.to_nat n) s with
                       | Some c => VStr (String c EmptyString)
                       | None => VUndefined
                       end
           | None => VUndefined
           end
  | _ => VUndefined
  end.

(** The loop of [hasPath]: every segment is found in turn. *)
Fixpoint follow (v : value) (path : list string) : bool :=
  match path with
  | [] => true
  | key :: rest => baseHas v key && follow (at_key v key) rest
  end.

(** [hasPath(object, path, baseHas)] on a path already cast.  An empty path
    gives false; after a failure the array-like test of the last lines
    applies to arrays and arguments objects only, which none of the values
    here is. *)
Definition hasPath (v : value) (path : list string) : bool :=
  match path with
  | [] => false
  | _ => follow v path
  end.

(** [isKey(value, object)].  A key of type number is a key; for a string
    that is not plain, [value in Object(object)] is the own-property test
    (what a plain object inherits has plain names). *)
Definition isKey (key_is_number : bool) (k : string) (o : object value)
  : bool :=
  key_is_number || reIsPlainProp k || negb (reIsDeepProp k) || JS.has o k.

(** [castPath(value, object)] *)
Definition castPath (key_is_number : bool) (k : string) (o : object value)
  : list string :=
  if isKey key_is_number k o then [k] else stringToPath k.

(** [_.has(object, path)] for a plain object and a path that is a number
    or a string, given by its rendering. *)
Definition has (o : object value) (key_is_number : bool) (k : string) : bool :=
  hasPath (VObj o) (castPath key_is_number k o).

End Lodash.

(* ------------------------------------------------------------------ *)
(** ** State of the class and of one instance *)

(** The two bound methods that [#startParsingPDF] subscribes on the engine. *)
Inductive handler : Type :=
| bound_onPDFJSParseDataReady
| bound_onPDFJSParserDataError.

(** The parsing engine object held in [#PDFJS], seen as an event emitter:
    its listeners in subscription order, each under its event name. *)
Record PDFJSClass : Type := mkPDFJS {
  needRawText : value;
  listeners : list (string * handler)
}.

(** The private fields of an instance.  [fq] holds the paths of the read
    tasks pushed on the instance's queue and not yet completed; the queue
    has concurrency 1 and its callback is always [#processPDFContent]. *)
Record PDFParser : Type := mkPDFParser {
  id : N;
  password : value;
  context : value;
  fq : list string;
  pdfFilePath : option string;
  pdfFileMTime : option jsnumber;
  data : value;
  PDFJS : PDFJSClass;
  processFieldInfoXML : bool
}.

(** The static fields.  [#maxBinBufferCount] is never assigned. *)
Record Static : Type := mkStatic {
  nextId : N;
  binBuffer : object value
}.

Definition maxBinBufferCount : N := 10.

Definition static_init : Static := {| nextId := 0; binBuffer := [] |}.

(** Calls that leave the class, in the order they are made. *)
Inductive call : Type :=
| Emit (event : string) (payload : value) (data_seen : value)
| ParsePDFData (buffer : value) (pwd : value)
| TryLoadFieldInfoXML (path : string)
| FqPush (path : string).

Record World : Type := mkWorld {
  this : PDFParser;
  static : Static;
  trace : list call
}.

(** ** A state monad with exceptions *)

Inductive completion (A : Type) : Type :=
| Normal (a : A)
| Throw (e : value).

Arguments Normal {A} a.
Arguments Throw {A} e.

Definition M (A : Type) : Type := World -> completion A * World.

Definition ret {A : Type} (a : A) : M A := fun w => (Normal a, w).

Definition bind {A B : Type} (m : M A) (k : A -> M B) : M B :=
  fun w =>
    match m w with
    | (Normal a, w') => k a w'
    | (Throw e, w') => (Throw e, w')
    end.

Definition throw {A : Type} (e : value) : M A := fun w => (Throw e, w).

Declare Scope js_scope.
Delimit Scope js_scope with js.
Notation "x <- m ;; k" := (bind m (fun x => k))
  (at level 61, m at next level, right associativity) : js_scope.
Notation "m ;; k" := (bind m (fun _ => k))
  (at level 61, right associativity) : js_scope.
Local Open Scope js_scope.

(** The world after running [m], whatever its completion. *)
Definition exec {A : Type} (m : M A) (w : World) : World := snd (m w).

Definition getThis : M PDFParser := fun w => (Normal (this w), w).
Definition getStatic : M Static := fun w => (Normal (static w), w).

Definition upd_this (f : PDFParser -> PDFParser) (w : World) : World :=
  {| this := f (this w); static := static w; trace := trace w |}.

Definition upd_static (f : Static -> Static) (w : World) : World :=
  {| this := this w; static := f (static w); trace := trace w |}.

Definition log (cs : list call) (w : World) : World :=
  {| this := this w; static := static w; trace := trace w ++ cs |}.

Definition modifyThis (f : PDFParser -> PDFParser) : M unit :=
  fun w => (Normal tt, upd_this f w).

Definition modifyStatic (f : Static -> Static) : M unit :=
  fun w => (Normal tt, upd_static f w).

Definition record (c : call) : M unit :=
  fun w => (Normal tt, log [c] w).

(** Field assignments. *)
Definition with_data (v : value) (p : PDFParser) : PDFParser :=
  mkPDFParser (id p) (password p) (context p) (fq p) (pdfFilePath p)
              (pdfFileMTime p) v (PDFJS p) (processFieldInfoXML p).

Definition with_pdfFilePath (x : option string) (p : PDFParser) : PDFParser :=
  mkPDFParser (id p) (password p) (context p) (fq p) x
              (pdfFileMTime p) (data p) (PDFJS p) (processFieldInfoXML p).

Definition with_pdfFileMTime (x : option jsnumber) (p : PDFParser) : PDFParser :=
  mkPDFParser (id p) (password p) (context p) (fq p) (pdfFilePath p)
              x (data p) (PDFJS p) (processFieldInfoXML p).

Definition with_fq (q : list string) (p : PDFParser) : PDFParser :=
  mkPDFParser (id p) (password p) (context p) q (pdfFilePath p)
              (pdfFileMTime p) (data p) (PDFJS p) (processFieldInfoXML p).

Definition with_PDFJS (e : PDFJSClass) (p : PDFParser) : PDFParser :=
  mkPDFParser (id p) (password p) (context p) (fq p) (pdfFilePath p)
              (pdfFileMTime p) (data p) e (processFieldInfoXML p).

Definition with_binBuffer (o : object value) (s : Static) : Static :=
  mkStatic (nextId s) o.

(** [this.emit(event, payload)]. *)
Definition emit (event : string) (payload : value) : M unit :=
  p <- getThis ;; record (Emit event payload (data p)).

(** [this.#PDFJS.on(event, h)]. *)
Definition PDFJS_on (event : string) (h : handler) : M unit :=
  modifyThis (fun p =>
    with_PDFJS (mkPDFJS (needRawText (PDFJS p))
                        (listeners (PDFJS p) ++ [(event, h)])) p).

(* ------------------------------------------------------------------ *)
(** ** The methods of [PDFParser] *)

(** [constructor(context, needRawText, password)]: takes the next id and
    builds the instance with a fresh engine and an empty read queue. *)
Definition new_PDFParser (ctx needRaw pwd : value) (s : Static)
  : PDFParser * Static :=
  ({| id := nextId s;
      password := pwd;
      context := ctx;
      fq := [];
      pdfFilePath := None;
      pdfFileMTime := None;
      data := VNull;
      PDFJS := mkPDFJS needRaw [];
      processFieldInfoXML := false |},
   mkStatic (Number_increment (nextId s)) (binBuffer s)).

(** [get binBufferKey()]: [this.#pdfFilePath + this.#pdfFileMTime], given
    as the property name it is used for ([null + null] is [0],
    [null + m] is [m], a string absorbs the other operand). *)
Definition binBufferKey (p : PDFParser) : string :=
  match pdfFilePath p, pdfFileMTime p with
  | Some path, Some m => String.append path (Number_toString m)
  | Some path, None => String.append path "null"
  | None, Some m => Number_toString m
  | None, None => "0"
  end.

(** Whether [typeof this.binBufferKey] is number: without a path the sum is
    a number, with one it is a string. *)
Definition binBufferKey_is_number (p : PDFParser) : bool :=
  match pdfFilePath p with
  | Some _ => false
  | None => true
  end.

(** [_.has(PDFParser.#binBuffer, this.binBufferKey)] *)
Definition has_binBuffer (s : Static) (p : PDFParser) : bool :=
  Lodash.has (binBuffer s) (binBufferKey_is_number p) (binBufferKey p).

(** [PDFParser.#binBuffer[k]] read as a value. *)
Definition member (o : object value) (k : string) : value :=
  match get o k with
  | Some v => v
  | None => VUndefined
  end.

(** [#onPDFJSParseDataReady(data)] *)
Definition onPDFJSParseDataReady (d : value) : M unit :=
  if negb (truthy d) then
    p <- getThis ;;
    let output := VObj [("formImage", data p)] in
    emit "pdfParser_dataReady" output
  else
    modifyThis (fun p => with_data (spread2 (data p) d) p).

(** [#onPDFJSParserDataError(data)] *)
Definition onPDFJSParserDataError (d : value) : M unit :=
  modifyThis (with_data VNull) ;;
  emit "pdfParser_dataError" (VObj [("parserError", d)]).

(** [#startParsingPDF(buffer)] *)
Definition startParsingPDF (buffer : value) : M unit :=
  modifyThis (with_data (VObj [])) ;;
  PDFJS_on "pdfjs_parseDataReady" bound_onPDFJSParseDataReady ;;
  PDFJS_on "pdfjs_parseDataError" bound_onPDFJSParserDataError ;;
  p <- getThis ;;
  s <- getStatic ;;
  record (ParsePDFData
            (or_else buffer (fun _ => member (binBuffer s) (binBufferKey p)))
            (password p)).

(** [#processBinaryCache()] *)
Definition processBinaryCache : M bool :=
  p <- getThis ;;
  s <- getStatic ;;
  if has_binBuffer s p then
    startParsingPDF VUndefined ;;
    ret true
  else
    let allKeys := keys (binBuffer s) in
    (if (maxBinBufferCount <? N.of_nat (List.length allKeys))%N then
       let idx := (id p mod maxBinBufferCount)%N in
       let key := match nth_error allKeys (N.to_nat idx) with
                  | Some k => k
                  | None => "undefined"
                  end in
       modifyStatic (fun s => with_binBuffer (set (binBuffer s) key VNull) s) ;;
       modifyStatic (fun s => with_binBuffer (delete (binBuffer s) key) s)
     else ret tt) ;;
    ret false.

(** [#processPDFContent(err, data)] *)
Definition processPDFContent (err d : value) : M unit :=
  if truthy err then
    modifyThis (with_data VNull) ;;
    emit "pdfParser_dataError" err
  else
    p <- getThis ;;
    modifyStatic (fun s =>
      with_binBuffer (set (binBuffer s) (binBufferKey p) d) s) ;;
    startParsingPDF VUndefined.

(** Outcome of [fs.statSync(path)], supplied by the environment. *)
Inductive stat_result : Type :=
| Stats (mtimeMs : jsnumber)
| StatError (e : value).

Definition fs_statSync (r : stat_result) : M jsnumber :=
  match r with
  | Stats m => ret m
  | StatError e => throw e
  end.

(** [this.#fq.push({path}, this.#processPDFContent.bind(this))] *)
Definition fq_push (path : string) : M unit :=
  modifyThis (fun p => with_fq (fq p ++ [path]) p) ;;
  record (FqPush path).

(** [loadPDF(pdfFilePath, verbosity)] *)
Definition loadPDF (path : string) (st : stat_result) : M unit :=
  modifyThis (with_pdfFilePath (Some path)) ;;
  m <- fs_statSync st ;;
  modifyThis (with_pdfFileMTime (Some m)) ;;
  p <- getThis ;;
  (if processFieldInfoXML p then record (TryLoadFieldInfoXML path)
   else ret tt) ;;
  hit <- processBinaryCache ;;
  if hit then ret tt
  else fq_push path.

(** [parseBuffer(pdfBuffer)] *)
Definition parseBuffer (pdfBuffer : value) : M unit :=
  startParsingPDF pdfBuffer.

(* ------------------------------------------------------------------ *)
(** ** The environment *)

Definition call_handler (h : handler) (arg : value) : M unit :=
  match h with
  | bound_onPDFJSParseDataReady => onPDFJSParseDataReady arg
  | bound_onPDFJSParserDataError => onPDFJSParserDataError arg
  end.

(** The listeners an [emit(event, ...)] on the engine calls, in order. *)
Definition handlers_for (event : string) (ls : list (string * handler))
  : list handler :=
  map snd (filter (fun l => String.eqb (fst l) event) ls).

Fixpoint call_all (hs : list handler) (arg : value) : M unit :=
  match hs with
  | [] => ret tt
  | h :: r => call_handler h arg ;; call_all r arg
  end.

(** The engine emits [event] with [arg]. *)
Definition PDFJS_emit (event : string) (arg : value) : M unit :=
  p <- getThis ;;
  call_all (handlers_for event (listeners (PDFJS p))) arg.

(** The [fs.readFile] of the oldest queued task calls back with
    [(err, data)]. *)
Definition readFile_done (err d : value) : M unit :=
  p <- getThis ;;
  match fq p with
  | [] => ret tt
  | _ :: q => modifyThis (with_fq q) ;; processPDFContent err d
  end.

Inductive input : Type :=
| CallLoadPDF (path : string) (st : stat_result)
| CallParseBuffer (pdfBuffer : value)
| ReadFileDone (err d : value)
| EngineEmit (event : string) (arg : value).

Definition step (i : input) : M unit :=
  match i with
  | CallLoadPDF path st => loadPDF path st
  | CallParseBuffer b => parseBuffer b
  | ReadFileDone err d => readFile_done err d
  | EngineEmit event arg => PDFJS_emit event arg
  end.

(** Run a sequence of moves; an exception ends the move that raised it and
    leaves the instance as it is. *)
Fixpoint run (moves : list input) (w : World) : World :=
  match moves with
  | [] => w
  | i :: r => run r (exec (step i) w)
  end.

Definition world_of (p : PDFParser) (s : Static) : World :=
  {| this := p; static := s; trace := [] |}.


(** [n] successive constructions; the ids of the instances in creation
    order, and the statics afterwards. *)
Fixpoint create_instances (n : nat) (s : Static) : list N * Static :=
  match n with
  | O => ([], s)
  | S n' =>
      let (p, s') := new_PDFParser VNull VNull VNull s in
      let (ids, s'') := create_instances n' s' in
      (id p :: ids, s'')
  end.

(** ** Observations on a trace *)

Definition is_emit_of (event : string) (c : call) : bool :=
  match c with
  | Emit e _ _ => String.eqb e event
  | _ => false
  end.

Definition count_emitted (event : string) (t : list call) : nat :=
  List.length (filter (is_emit_of event) t).

Definition dataReady_count (t : list call) : nat :=
  count_emitted "pdfParser_dataReady" t.

Definition dataError_count (t : list call) : nat :=
  count_emitted "pdfParser_dataError" t.

Definition queued_reads (t : list call) : list string :=
  flat_map (fun c => match c with FqPush p => [p] | _ => [] end) t.

Definition parse_calls (t : list call) : list (value * value) :=
  flat_map (fun c => match c with ParsePDFData b pw => [(b, pw)] | _ => [] end) t.

(** The calls made after the first [n] of the trace. *)
Definition since (n : nat) (t : list call) : list call := skipn n t.

(** Number of entries of the shared cache. *)
Definition binBuffer_count (w : World) : nat :=
  List.length (keys (binBuffer (static w))).

(** ** Vocabulary of the statements *)

(** The pair of subscriptions one [#startParsingPDF] makes on the engine. *)
Definition subscriptions : list (string * handler) :=
  [("pdfjs_parseDataReady", bound_onPDFJSParseDataReady);
   ("pdfjs_parseDataError", bound_onPDFJSParserDataError)].

(** The engine of the instance carries the subscriptions of exactly [n]
    parse sessions. *)
Definition sessions_started (n : nat) (w : World) : Prop :=
  listeners (PDFJS (this w)) = List.concat (repeat subscriptions n).

(** How the engine ends a parse: the null marker on its ready event, or an
    error event. *)
Inductive terminal : Type :=
| NoMoreData
| ParseError (detail : value).

Definition terminal_move (t : terminal) : input :=
  match t with
  | NoMoreData => EngineEmit "pdfjs_parseDataReady" VNull
  | ParseError d => EngineEmit "pdfjs_parseDataError" d
  end.

Definition payload_moves (payloads : list value) : list input :=
  map (EngineEmit "pdfjs_parseDataReady") payloads.

(** An engine that reports [payloads] and then ends the parse once. *)
Definition engine_moves (payloads : list value) (t : terminal) : list input :=
  payload_moves payloads ++ [terminal_move t].

(** One invocation of the public API together with what the environment
    answers: the bytes for [parseBuffer]; for [loadPDF] the path, the
    modification time and the outcome [(err, data)] of the disk read, which
    is used only when the load queues a read. *)
Inductive invocation : Type :=
| ParseBuffer (pdfBuffer : value)
| LoadPDF (path : string) (mtimeMs : jsnumber) (err d : value).

Definition invocation_moves (i : invocation) : list input :=
  match i with
  | ParseBuffer b => [CallParseBuffer b]
  | LoadPDF path m err d => [CallLoadPDF path (Stats m); ReadFileDone err d]
  end.

(** A session run to its end: the invocation, and, when it has handed bytes
    to the engine, the engine's payloads and terminal signal. *)
Definition run_session (i : invocation) (payloads : list value)
    (t : terminal) (w : World) : World :=
  let w1 := run (invocation_moves i) w in
  if Nat.ltb (List.length (parse_calls (trace w)))
             (List.length (parse_calls (trace w1)))
  then run (engine_moves payloads t) w1
  else w1.

(** The last binding of [k] in a list of properties. *)
Fixpoint get_last (props : list (string * value)) (k : string)
  : option value :=
  match props with
  | [] => None
  | (k', v) :: r =>
      match get_last r k with
      | Some v' => Some v'
      | None => if String.eqb k' k then Some v else None
      end
  end.

(** The own enumerable property [k] that a spread of [p] copies. *)
Definition own_property (p : value) (k : string) : option value :=
  get_last (own_enumerable p) k.

(** Last write wins: the value of [k] in the last payload that has it. *)
Fixpoint last_write (payloads : list value) (k : string) : option value :=
  match payloads with
  | [] => None
  | p :: r =>
      match last_write r k with
      | Some v => Some v
      | None => own_property p k
      end
  end.

(** A data-error emission is seen with a null [data]. *)
Definition error_seen_null (c : call) : Prop :=
  match c with
  | Emit event _ seen => event = "pdfParser_dataError" -> seen = VNull
  | _ => True
  end.

Definition with_cache (o : object value) (w : World) : World :=
  upd_static (with_binBuffer o) w.

(** The subscriptions of one more session on an engine. *)
Definition subscribed (e : PDFJSClass) : PDFJSClass :=
  mkPDFJS (needRawText e) (listeners e ++ subscriptions).

(** The world a [#startParsingPDF(buffer)] leaves. *)
Definition started (buffer : value) (w : World) : World :=
  {| this := with_PDFJS (subscribed (PDFJS (this w)))
                        (with_data (VObj []) (this w));
     static := static w;
     trace := trace w ++
       [ParsePDFData
          (or_else buffer
             (fun _ => member (binBuffer (static w)) (binBufferKey (this w))))
          (password (this w))] |}.

(** The key [#processBinaryCache] recycles for instance id [i], and the
    cache after its recycling step. *)
Definition victim (i : N) (o : object value) : string :=
  match nth_error (keys o) (N.to_nat (i mod maxBinBufferCount)) with
  | Some k => k
  | None => "undefined"
  end.

Definition recycled (i : N) (o : object value) : object value :=
  if (maxBinBufferCount <? N.of_nat (List.length (keys o)))%N
  then delete o (victim i o)
  else o.

(** The world after [loadPDF] has recorded the path and the modification
    time (and, were the flag set, asked for the field info). *)
Definition located (path : string) (m : jsnumber) (w : World) : World :=
  let w1 := upd_this (fun p => with_pdfFileMTime (Some m)
                                 (with_pdfFilePath (Some path) p)) w in
  if processFieldInfoXML (this w) then log [TryLoadFieldInfoXML path] w1
  else w1.

(** The world after a load that missed the cache has queued its read. *)
Definition queued (path : string) (w : World) : World :=
  log [FqPush path]
      (upd_this (fun p => with_fq (fq p ++ [path]) p)
         (with_cache (recycled (id (this w)) (binBuffer (static w))) w)).

(** One more merge of payload [d] into a result. *)
Definition merged (d : value) (x : value) : value := spread2 x d.

Definition dataReady_signal (result : value) : call :=
  Emit "pdfParser_dataReady" (VObj [("formImage", result)]) result.

Definition parserError_signal (detail : value) : call :=
  Emit "pdfParser_dataError" (VObj [("parserError", detail)]) VNull.

(** [w'] continues [w]: the trace is extended, every new data-error is
    seen with a null result, and the engine has gained the subscriptions of
    as many sessions as bytes were handed to it, and lost none. *)
Definition advances (w w' : World) : Prop :=
  exists new : list call,
    trace w' = trace w ++ new /\
    Forall error_seen_null new /\
    listeners (PDFJS (this w')) =
      listeners (PDFJS (this w)) ++
      List.concat (repeat subscriptions (List.length (parse_calls new))).

(** Assignments to fields other than [#PDFJS]. *)
Definition keeps_engine (f : PDFParser -> PDFParser) : Prop :=
  forall p, PDFJS (f p) = PDFJS p.

(** The terminal signals of one session: exactly one of data-ready and
    data-error, exactly once. *)
Definition exactly_one_terminal (new : list call) : Prop :=
  (dataReady_count new = 1%nat /\ dataError_count new = 0%nat) \/
  (dataReady_count new = 0%nat /\ dataError_count new = 1%nat).

(** Calls that hand nothing to the engine and emit no terminal signal. *)
Definition quiet (cs : list call) : Prop :=
  parse_calls cs = [] /\ dataReady_count cs = 0%nat /\ dataError_count cs = 0%nat.

(** The call [loadPDF] makes when the field-info flag is set. *)
Definition field_info_calls (path : string) (w : World) : list call :=
  if processFieldInfoXML (this w) then [TryLoadFieldInfoXML path] else [].

(** An instance just constructed in a process whose statics are [s]. *)
Definition new_world (ctx needRaw pwd : value) (s : Static) : World :=
  let (p, s') := new_PDFParser ctx needRaw pwd s in world_of p s'.

(** A process that has created one instance and nothing else. *)
Definition fresh_world (ctx needRaw pwd : value) : World :=
  new_world ctx needRaw pwd static_init.

(** ** Scenarios *)

(** The error object of a refused read. *)
Definition EACCES : value :=
  VObj [("errno", VNum (-13)); ("code", VStr "EACCES");
        ("syscall", VStr "open"); ("path", VStr "/tmp/a.pdf")].

(** A first load of /tmp/a.pdf on a new instance whose read is refused. *)
Definition refused_read : list input :=
  [CallLoadPDF "/tmp/a.pdf" (Stats 1700000000000);
   ReadFileDone EACCES VUndefined].

(** The first bytes of a PDF file. *)
Definition pdf_bytes : value := VBuffer [x25; x50; x44; x46].

(** An instance that has run one [parseBuffer] session to its end. *)
Definition after_one_session : World :=
  run (CallParseBuffer pdf_bytes :: engine_moves [] NoMoreData)
      (fresh_world VNull VNull VNull).

(** Loads of [n] distinct files, one after the other, each read succeeding
    before the next load is made. *)
Definition path_of (i : nat) : string :=
  String.append "/tmp/" (String.append (Number_toString (Z.of_nat i)) ".pdf").

Definition sequential_loads (n : nat) : list input :=
  flat_map (fun i => [CallLoadPDF (path_of i) (Stats 1700000000000);
                      ReadFileDone VNull pdf_bytes])
           (seq 0 n).

(** A load of [path] at modification time [m] whose read, if one is
    queued, succeeds with [d] before anything else happens. *)
Definition load_then_read (l : string * jsnumber * value) : list input :=
  let '(path, m, d) := l in
  [CallLoadPDF path (Stats m); ReadFileDone VNull d].

(** The three payloads [{a:1}], [{b:2}], [{a:3}]. *)
Definition payloads_a1_b2_a3 : list value :=
  [VObj [("a", VNum 1)]; VObj [("b", VNum 2)]; VObj [("a", VNum 3)]].

Definition result_a3_b2 : value := VObj [("a", VNum 3); ("b", VNum 2)].

(* ------------------------------------------------------------------ *)
(** ** The rest of the class: the [name] getter and [destroy] *)

(** [get name()]: the class name, an underscore and the id. *)
Definition name (p : PDFParser) : string :=
  String.append "PDFParser_" (Number_toString (Z.of_N (id p))).

Definition with_context (c : value) (p : PDFParser) : PDFParser :=
  mkPDFParser (id p) (password p) c (fq p) (pdfFilePath p)
              (pdfFileMTime p) (data p) (PDFJS p) (processFieldInfoXML p).

Definition with_processFieldInfoXML (b : bool) (p : PDFParser) : PDFParser :=
  mkPDFParser (id p) (password p) (context p) (fq p) (pdfFilePath p)
              (pdfFileMTime p) (data p) (PDFJS p) b.

(** The methods once more, over an instance whose [#PDFJS] field may have
    been set to null by [destroy].  A method call on the null field raises a
    [TypeError]; everything else is the code of the methods above. *)
Module Lifecycle.

(** Calls [destroy] makes outside the class. *)
Inductive teardown_call : Type :=
| RemoveAllListeners
| ContextDestroy (ctx : value)
| PDFJSDestroy.

Record Instance : Type := mkInstance {
  world : World;
  PDFJS_null : bool;
  teardown : list teardown_call
}.

Definition L (A : Type) : Type := Instance -> completion A * Instance.

Definition retL {A : Type} (a : A) : L A := fun i => (Normal a, i).

Definition bindL {A B : Type} (m : L A) (k : A -> L B) : L B :=
  fun i =>
    match m i with
    | (Normal a, i') => k a i'
    | (Throw e, i') => (Throw e, i')
    end.

Declare Scope lifecycle_scope.
Notation "x <- m ;; k" := (bindL m (fun x => k))
  (at level 61, m at next level, right associativity) : lifecycle_scope.
Notation "m ;; k" := (bindL m (fun _ => k))
  (at level 61, right associativity) : lifecycle_scope.
Local Open Scope lifecycle_scope.

(** A computation of the methods above, run on the instance. *)
Definition liftM {A : Type} (m : M A) : L A :=
  fun i =>
    let (c, w) := m (world i) in
    (c, mkInstance w (PDFJS_null i) (teardown i)).

Definition note (c : teardown_call) : L unit :=
  fun i => (Normal tt, mkInstance (world i) (PDFJS_null i) (teardown i ++ [c])).

(** The error of a method call on null. *)
Definition TypeError : value :=
  VObj [("name", VStr "TypeError");
        ("message", VStr "Cannot read properties of null")].

(** The error of calling what is not a function. *)
Definition not_a_function : value :=
  VObj [("name", VStr "TypeError");
        ("message", VStr "this.#context.destroy is not a function")].

(** [this.#PDFJS.m(...)]: the receiver must not be null. *)
Definition use_PDFJS : L unit :=
  fun i => if PDFJS_null i then (Throw TypeError, i) else (Normal tt, i).

(** [#startParsingPDF(buffer)] *)
Definition startParsingPDF (buffer : value) : L unit :=
  liftM (modifyThis (with_data (VObj []))) ;;
  use_PDFJS ;;
  liftM (PDFJS_on "pdfjs_parseDataReady" bound_onPDFJSParseDataReady) ;;
  liftM (PDFJS_on "pdfjs_parseDataError" bound_onPDFJSParserDataError) ;;
  p <- liftM getThis ;;
  s <- liftM getStatic ;;
  liftM (record (ParsePDFData
            (or_else buffer (fun _ => member (binBuffer s) (binBufferKey p)))
            (password p))).

(** [#processBinaryCache()] *)
Definition processBinaryCache : L bool :=
  p <- liftM getThis ;;
  s <- liftM getStatic ;;
  if has_binBuffer s p then
    startParsingPDF VUndefined ;;
    retL true
  else
    let allKeys := keys (binBuffer s) in
    (if (maxBinBufferCount <? N.of_nat (List.length allKeys))%N then
       let idx := (id p mod maxBinBufferCount)%N in
       let key := match nth_error allKeys (N.to_nat idx) with
                  | Some k => k
                  | None => "undefined"
                  end in
       liftM (modifyStatic
                (fun s => with_binBuffer (set (binBuffer s) key VNull) s)) ;;
       liftM (modifyStatic
                (fun s => with_binBuffer (delete (binBuffer s) key) s))
     else retL tt) ;;
    retL false.

(** [#processPDFContent(err, data)] *)
Definition processPDFContent (err d : value) : L unit :=
  if truthy err then
    liftM (modifyThis (with_data VNull)) ;;
    liftM (emit "pdfParser_dataError" err)
  else
    p <- liftM getThis ;;
    liftM (modifyStatic (fun s =>
      with_binBuffer (set (binBuffer s) (binBufferKey p) d) s)) ;;
    startParsingPDF VUndefined.

(** [loadPDF(pdfFilePath, verbosity)] *)
Definition loadPDF (path : string) (st : stat_result) : L unit :=
  liftM (modifyThis (with_pdfFilePath (Some path))) ;;
  m <- liftM (fs_statSync st) ;;
  liftM (modifyThis (with_pdfFileMTime (Some m))) ;;
  p <- liftM getThis ;;
  (if processFieldInfoXML p then
     use_PDFJS ;; liftM (record (TryLoadFieldInfoXML path))
   else retL tt) ;;
  hit <- processBinaryCache ;;
  if hit then retL tt
  else liftM (fq_push path).

(** [parseBuffer(pdfBuffer)] *)
Definition parseBuffer (pdfBuffer : value) : L unit :=
  startParsingPDF pdfBuffer.

(** The [fs.readFile] of the oldest queued task calls back. *)
Definition readFile_done (err d : value) : L unit :=
  p <- liftM getThis ;;
  match fq p with
  | [] => retL tt
  | _ :: q => liftM (modifyThis (with_fq q)) ;; processPDFContent err d
  end.

(** [this.#context.destroy()]: a context without such a method makes the
    call a [TypeError]; the method of one that has it is the caller's code,
    and [outcome] is how it completes. *)
Definition context_destroy (outcome : completion unit) : L unit :=
  p <- liftM getThis ;;
  if has_method (context p) "destroy" then
    note (ContextDestroy (context p)) ;;
    (fun i => (outcome, i))
  else
    (fun i => (Throw not_a_function, i)).

(** [destroy()] *)
Definition destroy (outcome : completion unit) : L unit :=
  note RemoveAllListeners ;;
  p <- liftM getThis ;;
  (if truthy (context p) then
     context_destroy outcome ;;
     liftM (modifyThis (with_context VNull))
   else retL tt) ;;
  liftM (modifyThis (with_pdfFilePath None)) ;;
  liftM (modifyThis (with_pdfFileMTime None)) ;;
  liftM (modifyThis (with_data VNull)) ;;
  liftM (modifyThis (with_processFieldInfoXML false)) ;;
  use_PDFJS ;;
  note PDFJSDestroy ;;
  (fun i => (Normal tt, mkInstance (world i) true (teardown i))).

(** An instance as the constructor leaves it. *)
Definition alive (w : World) : Instance := mkInstance w false [].

Definition execL {A : Type} (m : L A) (i : Instance) : Instance := snd (m i).

End Lifecycle.

(** ** Loads that do not overlap *)

(** An invocation, the answer to its read if it queues one, and then any
    events of the engine. *)
Definition block : Type := invocation * list (string * value).

Definition block_moves (b : block) : list input :=
  invocation_moves (fst b) ++
  map (fun ev => EngineEmit (fst ev) (snd ev)) (snd b).

(** The instance [p'] is [p] up to the result [#data]. *)
Definition only_data_differs (p p' : PDFParser) : Prop :=
  with_data (data p) p' = p.

(** No call of [tryLoadFieldInfoXML] among the calls. *)
Definition no_field_info (cs : list call) : Prop :=
  Forall (fun c => match c with TryLoadFieldInfoXML _ => False | _ => True end) cs.

(** [w'] continues [w] with the same identity: id, password, context,
    engine options and field-info flag of the instance and the id counter
    of the class are the same, the trace is extended, and no field info was
    asked for unless the flag was set. *)
Definition keeps_identity (w w' : World) : Prop :=
  id (this w') = id (this w) /\
  password (this w') = password (this w) /\
  context (this w') = context (this w) /\
  processFieldInfoXML (this w') = processFieldInfoXML (this w) /\
  needRawText (PDFJS (this w')) = needRawText (PDFJS (this w)) /\
  nextId (static w') = nextId (static w) /\
  exists new : list call,
    trace w' = trace w ++ new /\
    (processFieldInfoXML (this w) = false -> no_field_info new).

(** Assignments that leave the identity fields alone. *)
Definition keeps_identity_fields (f : PDFParser -> PDFParser) : Prop :=
  forall p,
    id (f p) = id p /\ password (f p) = password p /\
    context (f p) = context p /\
    processFieldInfoXML (f p) = processFieldInfoXML p /\
    needRawText (PDFJS (f p)) = needRawText (PDFJS p).

(** The calls the class makes: the two signals in their three forms, the
    start of a parse, the field-info request and the push of a read. *)
Inductive class_call : call -> Prop :=
| call_dataReady (result : value) : class_call (dataReady_signal result)
| call_parserError (detail : value) : class_call (parserError_signal detail)
| call_readError (err : value) :
    truthy err = true -> class_call (Emit "pdfParser_dataError" err VNull)
| call_parsePDFData (buffer pwd : value) : class_call (ParsePDFData buffer pwd)
| call_tryLoadFieldInfoXML (path : string) :
    class_call (TryLoadFieldInfoXML path)
| call_fq_push (path : string) : class_call (FqPush path).

(** [w'] continues [w] by calls of these forms only. *)
Definition extends_by_class_calls (w w' : World) : Prop :=
  exists new : list call, trace w' = trace w ++ new /\ Forall class_call new.

(** [destroy] gets past the context: none is set, or the one that is set
    has a [destroy] method and the method returns. *)
Definition context_released (ctx : value) (outcome : completion unit) : bool :=
  negb (truthy ctx)
  || (has_method ctx "destroy"
      && match outcome with Normal _ => true | Throw _ => false end).

(** A context of the web service: an object with a [destroy] method. *)
Definition service_context : value :=
  VInstance ["destroy"] [("name", VStr "ctx")].

(* ------------------------------------------------------------------ *)
(** * Facts about objects *)

Section ObjectFacts.
Context {V : Type}.
Implicit Types (o : object V) (k : string) (v : V).

Lemma get_set_same o k v : get (set o k v) k = Some v.
Proof.
  induction o as [|[k' v'] r IH]; simpl.
  - now rewrite String.eqb_refl.
  - destruct (String.eqb k' k) eqn:E; simpl; rewrite E; auto.
Qed.

Lemma get_set_other o k v k' : k' <> k -> get (set o k v) k' = get o k'.
Proof.
  intros Hne. induction o as [|[k0 v0] r IH]; simpl.
  - destruct (String.eqb_spec k k'); congruence.
  - destruct (String.eqb_spec k0 k) as [->|]; simpl.
    + destruct (String.eqb_spec k k'); congruence.
    + now rewrite IH.
Qed.

Lemma get_delete o k k' :
  get (delete o k) k' = if String.eqb k' k then None else get o k'.
Proof.
  induction o as [|[k0 v0] r IH]; simpl.
  - now destruct (String.eqb k' k).
  - destruct (String.eqb_spec k0 k) as [E|Hne]; simpl; rewrite IH.
    + destruct (String.eqb_spec k' k) as [E'|Hne']; [reflexivity|].
      destruct (String.eqb_spec k0 k'); congruence.
    + destruct (String.eqb_spec k0 k') as [E'|Hne']; [|reflexivity].
      destruct (String.eqb_spec k' k); congruence.
Qed.

Lemma delete_set o k v : delete (set o k v) k = delete o k.
Proof.
  induction o as [|[k0 v0] r IH]; simpl.
  - now rewrite String.eqb_refl.
  - destruct (String.eqb k0 k) eqn:E; simpl; rewrite E; simpl; congruence.
Qed.

Lemma has_true_iff o k : has o k = true <-> In k (map fst o).
Proof.
  unfold has. induction o as [|[k0 v0] r IH]; simpl.
  - split; [discriminate | tauto].
  - destruct (String.eqb_spec k0 k) as [->|Hne].
    + tauto.
    + rewrite IH. split; [tauto | intros [H|H]; [congruence | exact H]].
Qed.

Lemma map_fst_set o k v :
  map fst (set o k v) = if has o k then map fst o else map fst o ++ [k].
Proof.
  unfold has. induction o as [|[k0 v0] r IH]; simpl.
  - reflexivity.
  - destruct (String.eqb_spec k0 k) as [->|Hne]; simpl.
    + reflexivity.
    + rewrite IH. now destruct (get r k).
Qed.

Lemma wf_set o k v : wf o -> wf (set o k v).
Proof.
  unfold wf. intros H. rewrite map_fst_set.
  destruct (has o k) eqn:E; [exact H|].
  apply NoDup_app_remove_l with (l := []); simpl.
  apply Permutation_NoDup with (l := k :: map fst o).
  - apply Permutation_cons_append.
  - constructor; [|exact H].
    intros Hin. apply has_true_iff in Hin. congruence.
Qed.

Lemma map_fst_delete o k :
  map fst (delete o k) = filter (fun k' => negb (String.eqb k' k)) (map fst o).
Proof.
  unfold delete. induction o as [|[k0 v0] r IH]; simpl.
  - reflexivity.
  - destruct (String.eqb k0 k); simpl; congruence.
Qed.

Lemma wf_delete o k : wf o -> wf (delete o k).
Proof.
  unfold wf. intros H. rewrite map_fst_delete. now apply NoDup_filter.
Qed.
End ObjectFacts.

(** ** Enumeration order *)

Section EnumerationFacts.
Context {V : Type}.
Implicit Types (o : object V) (k : string) (l : list (@indexed V)).

Lemma insert_by_index_perm x l : Permutation (insert_by_index x l) (x :: l).
Proof.
  induction l as [|y r IH]; simpl.
  - apply Permutation_refl.
  - destruct (fst x <=? fst y)%N.
    + apply Permutation_refl.
    + eapply perm_trans; [apply perm_skip, IH | apply perm_swap].
Qed.

Lemma sort_by_index_perm l : Permutation (sort_by_index l) l.
Proof.
  induction l as [|x r IH]; simpl.
  - constructor.
  - eapply perm_trans; [apply insert_by_index_perm | now apply perm_skip].
Qed.

Lemma insert_by_index_sorted x l :
  StronglySorted index_le l -> StronglySorted index_le (insert_by_index x l).
Proof.
  induction l as [|y r IH]; simpl; intros Hs.
  - repeat constructor.
  - inversion Hs as [|? ? Hr Hy]; subst.
    destruct (fst x <=? fst y)%N eqn:E.
    + apply N.leb_le in E. constructor; [exact Hs|].
      constructor; [exact E|].
      eapply Forall_impl; [|exact Hy].
      intros z Hz. unfold index_le in *. lia.
    + apply N.leb_gt in E. constructor; [now apply IH|].
      apply Forall_forall. intros z Hz.
      apply (Permutation_in _ (insert_by_index_perm x r)) in Hz.
      destruct Hz as [<-|Hz].
      * unfold index_le. lia.
      * rewrite Forall_forall in Hy. now apply Hy.
Qed.

Lemma sort_by_index_sorted l : StronglySorted index_le (sort_by_index l).
Proof.
  induction l as [|x r IH]; simpl.
  - constructor.
  - now apply insert_by_index_sorted.
Qed.

Lemma insert_by_index_least x l :
  Forall (index_le x) l -> insert_by_index x l = x :: l.
Proof.
  destruct l as [|y r]; simpl; intros H; [reflexivity|].
  inversion H as [|? ? Hxy _]; subst.
  apply N.leb_le in Hxy. now rewrite Hxy.
Qed.

(** Filtering commutes with the insertion into a sorted list. *)
Lemma filter_insert_by_index (q : @indexed V -> bool) x l :
  StronglySorted index_le l ->
  filter q (insert_by_index x l) =
  if q x then insert_by_index x (filter q l) else filter q l.
Proof.
  induction l as [|y r IH]; simpl; intros Hs.
  - now destruct (q x).
  - inversion Hs as [|? ? Hr Hy]; subst.
    destruct (fst x <=? fst y)%N eqn:E; simpl.
    + destruct (q x) eqn:Qx; [|reflexivity].
      symmetry. apply (insert_by_index_least x (filter q (y :: r))).
      apply N.leb_le in E.
      apply Forall_forall. intros z Hz.
      apply filter_In in Hz. destruct Hz as [[<-|Hz] _].
      * exact E.
      * rewrite Forall_forall in Hy. specialize (Hy z Hz).
        unfold index_le in *. lia.
    + rewrite (IH Hr). destruct (q y) eqn:Qy, (q x) eqn:Qx; simpl;
        try rewrite E; reflexivity.
Qed.

Lemma filter_sort_by_index (q : @indexed V -> bool) l :
  filter q (sort_by_index l) = sort_by_index (filter q l).
Proof.
  induction l as [|x r IH]; simpl.
  - reflexivity.
  - rewrite filter_insert_by_index by apply sort_by_index_sorted.
    rewrite IH. now destruct (q x).
Qed.

Lemma index_entries_named_perm o :
  Permutation (map snd (flat_map index_entry o) ++ filter is_named o) o.
Proof.
  induction o as [|e r IH]; simpl.
  - constructor.
  - unfold index_entry at 1, is_named at 1.
    destruct (array_index (fst e)); simpl.
    + now apply perm_skip.
    + apply Permutation_sym.
      eapply perm_trans; [apply perm_skip, Permutation_sym, IH|].
      apply Permutation_middle.
Qed.

Lemma entries_perm o : Permutation (entries o) o.
Proof.
  unfold entries.
  eapply perm_trans; [|apply index_entries_named_perm].
  apply Permutation_app_tail, Permutation_map, sort_by_index_perm.
Qed.

Lemma keys_perm o : Permutation (keys o) (map fst o).
Proof. unfold keys. apply Permutation_map, entries_perm. Qed.

Lemma keys_length o : List.length (keys o) = List.length o.
Proof.
  rewrite (Permutation_length (keys_perm o)). apply length_map.
Qed.

Lemma keys_NoDup o : wf o -> NoDup (keys o).
Proof.
  intros H. eapply Permutation_NoDup; [|exact H].
  apply Permutation_sym, keys_perm.
Qed.

Lemma in_keys_has o k : In k (keys o) <-> has o k = true.
Proof.
  rewrite has_true_iff. split; apply Permutation_in.
  - apply keys_perm.
  - apply Permutation_sym, keys_perm.
Qed.

(** Enumeration commutes with the removal of properties. *)
Lemma flat_map_index_entry_filter (p : string * V -> bool) o :
  flat_map index_entry (filter p o) =
  filter (fun x : @indexed V => p (snd x)) (flat_map index_entry o).
Proof.
  induction o as [|e r IH]; simpl; [reflexivity|].
  rewrite filter_app.
  destruct (p e) eqn:Pe; simpl; rewrite IH; unfold index_entry;
    destruct (array_index (fst e)); simpl; rewrite ?Pe; reflexivity.
Qed.

Lemma map_snd_filter (p : string * V -> bool) l :
  map snd (filter (fun x : @indexed V => p (snd x)) l) = filter p (map snd l).
Proof.
  induction l as [|x r IH]; simpl; [reflexivity|].
  destruct (p (snd x)); simpl; congruence.
Qed.

Lemma filter_swap {A : Type} (p q : A -> bool) (l : list A) :
  filter p (filter q l) = filter q (filter p l).
Proof.
  induction l as [|x r IH]; simpl; [reflexivity|].
  destruct (q x) eqn:Q, (p x) eqn:P; simpl; rewrite ?Q, ?P; congruence.
Qed.

Lemma entries_filter (p : string * V -> bool) o :
  entries (filter p o) = filter p (entries o).
Proof.
  unfold entries.
  rewrite filter_app, flat_map_index_entry_filter.
  rewrite <- filter_sort_by_index, map_snd_filter.
  f_equal. apply filter_swap.
Qed.

Lemma entries_delete o k :
  entries (delete o k) =
  filter (fun e => negb (String.eqb (fst e) k)) (entries o).
Proof. apply entries_filter. Qed.

Lemma keys_delete o k :
  keys (delete o k) = filter (fun k' => negb (String.eqb k' k)) (keys o).
Proof.
  unfold keys. rewrite entries_delete.
  generalize (entries o). intros l.
  induction l as [|e r IH]; simpl; [reflexivity|].
  destruct (negb (String.eqb (fst e) k)); simpl; congruence.
Qed.
End EnumerationFacts.

(** Removing a key that occurs once shortens a duplicate-free list by one. *)
Lemma filter_out_length (l : list string) (k : string) :
  NoDup l -> In k l ->
  S (List.length (filter (fun k' => negb (String.eqb k' k)) l)) = List.length l.
Proof.
  induction l as [|x r IH]; simpl; intros Hnd Hin; [tauto|].
  inversion Hnd as [|? ? Hx Hr]; subst.
  destruct (String.eqb_spec x k) as [->|Hne]; simpl.
  - f_equal. clear IH Hin Hnd Hr.
    induction r as [|y r IH]; simpl; [reflexivity|].
    destruct (String.eqb_spec y k) as [->|]; simpl.
    + exfalso. apply Hx. now left.
    + f_equal. apply IH. intros H. apply Hx. now right.
  - f_equal. apply IH; [exact Hr|]. destruct Hin; congruence.
Qed.

(* ------------------------------------------------------------------ *)
(** * Evaluation of the methods *)

Arguments startParsingPDF : simpl never.
Arguments processBinaryCache : simpl never.
Arguments processPDFContent : simpl never.
Arguments onPDFJSParseDataReady : simpl never.
Arguments onPDFJSParserDataError : simpl never.
Arguments loadPDF : simpl never.
Arguments Number_toString : simpl never.
Arguments String.append : simpl never.

Ltac run_monad :=
  unfold bind, ret, throw, getThis, getStatic, modifyThis, modifyStatic,
    record, emit, PDFJS_on, fq_push, fs_statSync; cbn.

Lemma with_data_same p : with_data (data p) p = p.
Proof. now destruct p. Qed.

Lemma upd_this_with_data_same w : upd_this (with_data (data (this w))) w = w.
Proof. destruct w as [p s t]. unfold upd_this; simpl. now rewrite with_data_same. Qed.

Lemma log_nil w : log [] w = w.
Proof. destruct w as [p s t]. unfold log; simpl. now rewrite app_nil_r. Qed.

Lemma startParsingPDF_eq b w : startParsingPDF b w = (Normal tt, started b w).
Proof.
  unfold startParsingPDF, started, subscribed, subscriptions. run_monad.
  unfold upd_this, log, with_PDFJS, with_data; simpl.
  now rewrite <- app_assoc.
Qed.

Lemma onPDFJSParseDataReady_truthy d w :
  truthy d = true ->
  onPDFJSParseDataReady d w =
  (Normal tt, upd_this (with_data (merged d (data (this w)))) w).
Proof.
  intros H. unfold onPDFJSParseDataReady. rewrite H. reflexivity.
Qed.

Lemma onPDFJSParseDataReady_falsy d w :
  truthy d = false ->
  onPDFJSParseDataReady d w =
  (Normal tt, log [dataReady_signal (data (this w))] w).
Proof.
  intros H. unfold onPDFJSParseDataReady. rewrite H. reflexivity.
Qed.

Lemma onPDFJSParserDataError_eq d w :
  onPDFJSParserDataError d w =
  (Normal tt, log [parserError_signal d] (upd_this (with_data VNull) w)).
Proof. reflexivity. Qed.

Lemma processPDFContent_error err d w :
  truthy err = true ->
  processPDFContent err d w =
  (Normal tt,
   log [Emit "pdfParser_dataError" err VNull] (upd_this (with_data VNull) w)).
Proof.
  intros H. unfold processPDFContent. rewrite H. reflexivity.
Qed.

Lemma processPDFContent_success err d w :
  truthy err = false ->
  processPDFContent err d w =
  (Normal tt,
   started VUndefined
     (with_cache (set (binBuffer (static w)) (binBufferKey (this w)) d) w)).
Proof.
  intros H. unfold processPDFContent. rewrite H. run_monad.
  now rewrite startParsingPDF_eq.
Qed.

Lemma processBinaryCache_hit w :
  has_binBuffer (static w) (this w) = true ->
  processBinaryCache w = (Normal true, started VUndefined w).
Proof.
  intros H. unfold processBinaryCache. run_monad. rewrite H.
  run_monad. now rewrite startParsingPDF_eq.
Qed.

Lemma with_cache_same w : with_cache (binBuffer (static w)) w = w.
Proof. destruct w as [p [n o] t]. reflexivity. Qed.

Lemma processBinaryCache_miss w :
  has_binBuffer (static w) (this w) = false ->
  processBinaryCache w =
  (Normal false, with_cache (recycled (id (this w)) (binBuffer (static w))) w).
Proof.
  intros H. unfold processBinaryCache. run_monad. rewrite H.
  unfold recycled, victim. run_monad.
  destruct (maxBinBufferCount <? N.of_nat (List.length (keys (binBuffer (static w)))))%N;
    cbn.
  - unfold with_cache, upd_static, with_binBuffer; cbn.
    do 3 f_equal. apply delete_set.
  - now rewrite with_cache_same.
Qed.

Lemma binBufferKey_located path m w :
  binBufferKey (this (located path m w)) = String.append path (Number_toString m).
Proof.
  unfold located. now destruct (processFieldInfoXML (this w)).
Qed.

Lemma static_located path m w : static (located path m w) = static w.
Proof.
  unfold located. now destruct (processFieldInfoXML (this w)).
Qed.

Lemma has_binBuffer_located path m w :
  has_binBuffer (static (located path m w)) (this (located path m w)) =
  Lodash.has (binBuffer (static w)) false
             (String.append path (Number_toString m)).
Proof.
  unfold has_binBuffer. rewrite binBufferKey_located, static_located.
  unfold located. now destruct (processFieldInfoXML (this w)).
Qed.

Lemma loadPDF_eq path m w :
  loadPDF path (Stats m) w =
  (Normal tt,
   if Lodash.has (binBuffer (static w)) false
                 (String.append path (Number_toString m))
   then started VUndefined (located path m w)
   else queued path (located path m w)).
Proof.
  pose proof (has_binBuffer_located path m w) as Hg.
  unfold loadPDF. run_monad.
  destruct (Lodash.has (binBuffer (static w)) false
                       (String.append path (Number_toString m))) eqn:Hhas.
  - destruct (processFieldInfoXML (this w)) eqn:Hx; cbn;
      (rewrite processBinaryCache_hit;
       [ unfold located; rewrite Hx; reflexivity
       | unfold located in Hg; rewrite Hx in Hg; exact Hg ]).
  - destruct (processFieldInfoXML (this w)) eqn:Hx; cbn;
      (rewrite processBinaryCache_miss;
       [ unfold located, queued; rewrite Hx; reflexivity
       | unfold located in Hg; rewrite Hx in Hg; exact Hg ]).
Qed.

Lemma loadPDF_stat_error path e w :
  loadPDF path (StatError e) w =
  (Throw e, upd_this (with_pdfFilePath (Some path)) w).
Proof. reflexivity. Qed.

Lemma since_app (t new : list call) : since (List.length t) (t ++ new) = new.
Proof.
  unfold since. rewrite skipn_app, skipn_all, Nat.sub_diag. reflexivity.
Qed.

(* ------------------------------------------------------------------ *)
(** * parseBuffer *)

(** C8.  For every buffer, [parseBuffer] starts a parse session on the
    caller's bytes: the engine is called with exactly these bytes, the
    recorded path and modification time, the read queue and the statics
    (hence the shared cache: no entry created or evicted) are unchanged, and
    the call made to the engine is the same whatever the cache holds (no
    entry is read to decide it). *)
Theorem parseBuffer_bypasses_cache (w : World) (bytes : list byte) :
  let w' := exec (parseBuffer (VBuffer bytes)) w in
  parseBuffer (VBuffer bytes) w = (Normal tt, w') /\
  pdfFilePath (this w') = pdfFilePath (this w) /\
  pdfFileMTime (this w') = pdfFileMTime (this w) /\
  fq (this w') = fq (this w) /\
  static w' = static w /\
  data (this w') = VObj [] /\
  trace w' = trace w ++ [ParsePDFData (VBuffer bytes) (password (this w))] /\
  forall o : object value,
    let wo := exec (parseBuffer (VBuffer bytes)) (with_cache o w) in
    binBuffer (static wo) = o /\
    since (List.length (trace w)) (trace wo) =
      [ParsePDFData (VBuffer bytes) (password (this w))].
Proof.
  unfold parseBuffer, exec. rewrite startParsingPDF_eq. cbn.
  repeat split; try reflexivity.
  rewrite startParsingPDF_eq. cbn. apply since_app.
Qed.

(* ------------------------------------------------------------------ *)
(** * Failure of the disk read *)

(** C4.  On a refused read the instance emits one data-error and no
    data-ready, but the payload of the data-error is the raw error object,
    not [{parserError: <error>}] as [#onPDFJSParserDataError] builds it. *)
Theorem read_failure_payload_is_raw_error :
  let w := run refused_read (fresh_world VNull VNull VNull) in
  trace w = [FqPush "/tmp/a.pdf"; Emit "pdfParser_dataError" EACCES VNull] /\
  dataError_count (trace w) = 1 /\
  dataReady_count (trace w) = 0 /\
  EACCES <> VObj [("parserError", EACCES)] /\
  exec (onPDFJSParserDataError EACCES) (fresh_world VNull VNull VNull) =
    log [Emit "pdfParser_dataError" (VObj [("parserError", EACCES)]) VNull]
        (fresh_world VNull VNull VNull).
Proof.
  cbv zeta. repeat split; try reflexivity. discriminate.
Qed.

(* ------------------------------------------------------------------ *)
(** * Instance ids *)

Lemma Number_increment_exact (x : N) :
  (x < 2 ^ 53)%N -> Number_increment x = (x + 1)%N.
Proof.
  intros H. unfold Number_increment.
  apply N.ltb_lt in H. now rewrite H.
Qed.

Lemma create_instances_ids (n : nat) : forall s : Static,
  (nextId s + N.of_nat n <= 2 ^ 53 + 1)%N ->
  fst (create_instances n s) =
  map (fun i => (nextId s + N.of_nat i)%N) (seq 0 n).
Proof.
  induction n as [|n IH]; intros s Hb; [reflexivity|].
  cbn [create_instances new_PDFParser id].
  destruct (create_instances n _) as [ids s''] eqn:E.
  cbn [fst seq map]. f_equal; [now rewrite N.add_0_r|].
  destruct n as [|n].
  - cbn in E. now inversion E.
  - assert (Hlt : (nextId s < 2 ^ 53)%N) by lia.
    specialize (IH (mkStatic (Number_increment (nextId s)) (binBuffer s))).
    rewrite E in IH. cbn [fst nextId] in IH.
    rewrite Number_increment_exact in IH by exact Hlt.
    rewrite IH by lia.
    rewrite <- seq_shift, map_map.
    apply map_ext. intros i. lia.
Qed.

(** C9.  The ids given to [n] instances created in one process are
    0, 1, ..., n-1 in creation order: they start at 0, are pairwise distinct
    and strictly increasing.  The count is kept within the range on which
    the number [#nextId] increments exactly. *)
Theorem ids_distinct_and_increasing (n : nat) :
  (N.of_nat n <= 2 ^ 53 + 1)%N ->
  let ids := fst (create_instances n static_init) in
  ids = map N.of_nat (seq 0 n) /\
  NoDup ids /\
  StronglySorted N.lt ids.
Proof.
  intros Hn ids.
  assert (Hids : ids = map N.of_nat (seq 0 n)).
  { unfold ids. rewrite create_instances_ids by (cbn [nextId static_init]; lia).
    apply map_ext. intros i. cbn [nextId static_init]. lia. }
  split; [exact Hids|]. rewrite Hids. split.
  - apply Finite.Injective_map_NoDup; [|apply seq_NoDup].
    intros a b. apply Nat2N.inj.
  - generalize 0%nat. clear. induction n as [|n IH]; intros start; cbn.
    + constructor.
    + constructor; [apply IH|].
      apply Forall_forall. intros x Hx.
      apply in_map_iff in Hx. destruct Hx as [i [<- Hi]].
      apply in_seq in Hi. lia.
Qed.

Lemma ids_distinct_and_increasing_witness :
  fst (create_instances 4 static_init) = [0; 1; 2; 3]%N /\
  NoDup (fst (create_instances 4 static_init)) /\
  StronglySorted N.lt (fst (create_instances 4 static_init)).
Proof.
  apply (ids_distinct_and_increasing 4). vm_compute. discriminate.
Defined.

(* ------------------------------------------------------------------ *)
(** * Dispatch of the engine's events *)

Lemma handlers_for_ready (n : nat) :
  handlers_for "pdfjs_parseDataReady" (List.concat (repeat subscriptions n)) =
  repeat bound_onPDFJSParseDataReady n.
Proof. induction n as [|n IH]; cbn; [reflexivity | f_equal; exact IH]. Qed.

Lemma handlers_for_error (n : nat) :
  handlers_for "pdfjs_parseDataError" (List.concat (repeat subscriptions n)) =
  repeat bound_onPDFJSParserDataError n.
Proof. induction n as [|n IH]; cbn; [reflexivity | f_equal; exact IH]. Qed.

Lemma call_all_ready_truthy (n : nat) (d : value) : forall w : World,
  truthy d = true ->
  call_all (repeat bound_onPDFJSParseDataReady n) d w =
  (Normal tt, upd_this (with_data (Nat.iter n (merged d) (data (this w)))) w).
Proof.
  induction n as [|n IH]; intros w Hd.
  - cbn. now rewrite upd_this_with_data_same.
  - cbn [repeat call_all call_handler]. unfold bind.
    rewrite onPDFJSParseDataReady_truthy by exact Hd.
    rewrite IH by exact Hd. rewrite Nat.iter_succ_r. reflexivity.
Qed.

Lemma call_all_ready_falsy (n : nat) (d : value) : forall w : World,
  truthy d = false ->
  call_all (repeat bound_onPDFJSParseDataReady n) d w =
  (Normal tt, log (repeat (dataReady_signal (data (this w))) n) w).
Proof.
  induction n as [|n IH]; intros w Hd.
  - cbn. now rewrite log_nil.
  - cbn [repeat call_all call_handler]. unfold bind.
    rewrite onPDFJSParseDataReady_falsy by exact Hd.
    rewrite IH by exact Hd. unfold log; cbn. now rewrite <- app_assoc.
Qed.

Lemma call_all_error (n : nat) (d : value) : forall w : World,
  call_all (repeat bound_onPDFJSParserDataError (S n)) d w =
  (Normal tt,
   log (repeat (parserError_signal d) (S n)) (upd_this (with_data VNull) w)).
Proof.
  induction n as [|n IH]; intros w.
  - reflexivity.
  - cbn [repeat call_all call_handler] in *. unfold bind in *.
    rewrite onPDFJSParserDataError_eq. rewrite IH.
    unfold log, upd_this; cbn. now rewrite <- app_assoc.
Qed.

Lemma PDFJS_emit_payload n d w :
  sessions_started n w -> truthy d = true ->
  PDFJS_emit "pdfjs_parseDataReady" d w =
  (Normal tt, upd_this (with_data (Nat.iter n (merged d) (data (this w)))) w).
Proof.
  intros Hs Hd. unfold PDFJS_emit, bind, getThis.
  rewrite Hs, handlers_for_ready. now apply call_all_ready_truthy.
Qed.

Lemma PDFJS_emit_no_more_data n d w :
  sessions_started n w -> truthy d = false ->
  PDFJS_emit "pdfjs_parseDataReady" d w =
  (Normal tt, log (repeat (dataReady_signal (data (this w))) n) w).
Proof.
  intros Hs Hd. unfold PDFJS_emit, bind, getThis.
  rewrite Hs, handlers_for_ready. now apply call_all_ready_falsy.
Qed.

Lemma PDFJS_emit_error n d w :
  sessions_started (S n) w ->
  PDFJS_emit "pdfjs_parseDataError" d w =
  (Normal tt,
   log (repeat (parserError_signal d) (S n)) (upd_this (with_data VNull) w)).
Proof.
  intros Hs. unfold PDFJS_emit, bind, getThis.
  rewrite Hs, handlers_for_error. apply call_all_error.
Qed.

Lemma concat_repeat_snoc {A : Type} (l : list A) (n : nat) :
  List.concat (repeat l n) ++ l = List.concat (repeat l (S n)).
Proof.
  induction n as [|n IH].
  - cbn. now rewrite app_nil_r.
  - change (List.concat (repeat l (S n))) with (l ++ List.concat (repeat l n)).
    rewrite <- app_assoc, IH. reflexivity.
Qed.

Lemma sessions_started_started n b w :
  sessions_started n w -> sessions_started (S n) (started b w).
Proof.
  unfold sessions_started, started. cbn [this PDFJS with_PDFJS subscribed listeners].
  intros ->. apply concat_repeat_snoc.
Qed.

Lemma sessions_started_upd_data n v w :
  sessions_started n w -> sessions_started n (upd_this (with_data v) w).
Proof. exact (fun H => H). Qed.

Lemma sessions_started_log n cs w :
  sessions_started n w -> sessions_started n (log cs w).
Proof. exact (fun H => H). Qed.

(* ------------------------------------------------------------------ *)
(** * Merge of the engine's payloads *)

Lemma get_absent {V : Type} (o : object V) (k : string) :
  ~ In k (map fst o) -> get o k = None.
Proof.
  intros H. destruct (get o k) eqn:E; [|reflexivity].
  exfalso. apply H, has_true_iff. unfold has. now rewrite E.
Qed.

Lemma get_perm {V : Type} (l l' : object V) (k : string) :
  NoDup (map fst l) -> Permutation l l' -> get l k = get l' k.
Proof.
  intros Hnd Hp. induction Hp as [|[k0 v0] l l' Hp IH|[k1 v1] [k2 v2] l|l1 l2 l3 H12 IH12 H23 IH23].
  - reflexivity.
  - cbn. inversion Hnd; subst. now rewrite IH.
  - cbn. cbn in Hnd. inversion Hnd as [|? ? Hnot _]; subst.
    destruct (String.eqb_spec k1 k) as [E1|N1], (String.eqb_spec k2 k) as [E2|N2];
      try reflexivity.
    exfalso. apply Hnot. left. congruence.
  - rewrite IH12 by exact Hnd. apply IH23.
    eapply Permutation_NoDup; [|exact Hnd]. now apply Permutation_map.
Qed.

Lemma get_entries {V : Type} (o : object V) (k : string) :
  wf o -> get (entries o) k = get o k.
Proof.
  intros H. apply get_perm; [|apply entries_perm].
  now apply keys_NoDup.
Qed.

Lemma get_last_NoDup (l : object value) (k : string) :
  NoDup (map fst l) -> get_last l k = get l k.
Proof.
  induction l as [|[k0 v0] r IH]; cbn; intros Hnd; [reflexivity|].
  inversion Hnd as [|? ? Hnot Hr]; subst. rewrite (IH Hr).
  destruct (String.eqb_spec k0 k) as [E|N].
  - subst k0. now rewrite (get_absent r k Hnot).
  - now destruct (get r k).
Qed.

Lemma get_assign (props t : object value) (k : string) :
  get (assign t props) k =
  match get_last props k with
  | Some v => Some v
  | None => get t k
  end.
Proof.
  revert t. induction props as [|[k0 v0] r IH]; intros t; cbn.
  - reflexivity.
  - unfold assign in IH. rewrite IH.
    destruct (get_last r k); [reflexivity|].
    destruct (String.eqb_spec k0 k) as [E|N].
    + subst k0. apply get_set_same.
    + apply get_set_other. congruence.
Qed.

Lemma wf_assign {V : Type} (props t : object V) : wf t -> wf (assign t props).
Proof.
  revert t. induction props as [|e r IH]; intros t Ht; cbn.
  - exact Ht.
  - apply IH. now apply wf_set.
Qed.

Lemma wf_nil {V : Type} : wf (@nil (string * V)).
Proof. constructor. Qed.

(** One merge: the payload's own properties win, the others are kept. *)
Lemma merged_obj (d : value) (o : object value) :
  wf o ->
  exists o', merged d (VObj o) = VObj o' /\ wf o' /\
    forall k, get o' k = match own_property d k with
                         | Some v => Some v
                         | None => get o k
                         end.
Proof.
  intros Ho. eexists. split; [reflexivity|]. split.
  - apply wf_assign, wf_assign, wf_nil.
  - intros k. rewrite get_assign. unfold own_property.
    destruct (get_last (own_enumerable d) k); [reflexivity|].
    rewrite get_assign. cbn [own_enumerable get].
    rewrite get_last_NoDup by now apply keys_NoDup.
    rewrite get_entries by exact Ho. now destruct (get o k).
Qed.

(** Merging the same payload again changes no property. *)
Lemma iter_merged_obj (d : value) (n : nat) (o : object value) :
  wf o ->
  exists o', Nat.iter (S n) (merged d) (VObj o) = VObj o' /\ wf o' /\
    forall k, get o' k = match own_property d k with
                         | Some v => Some v
                         | None => get o k
                         end.
Proof.
  intros Ho. induction n as [|n IH].
  - now apply merged_obj.
  - destruct IH as [o1 [E1 [W1 G1]]].
    destruct (merged_obj d o1 W1) as [o2 [E2 [W2 G2]]].
    exists o2. split; [|split; [exact W2|]].
    + change (Nat.iter (S (S n)) (merged d) (VObj o))
        with (merged d (Nat.iter (S n) (merged d) (VObj o))).
      now rewrite E1.
    + intros k. rewrite G2, G1. now destruct (own_property d k).
Qed.

Lemma run_app (a b : list input) (w : World) : run (a ++ b) w = run b (run a w).
Proof. revert w. induction a as [|i r IH]; intros w; cbn; auto. Qed.

(** The payloads of a session, seen from the result they leave. *)
Lemma run_payloads (n : nat) (ps : list value) : forall (w : World) (o : object value),
  sessions_started (S n) w ->
  Forall (fun p => truthy p = true) ps ->
  data (this w) = VObj o -> wf o ->
  let w' := run (payload_moves ps) w in
  static w' = static w /\ trace w' = trace w /\
  PDFJS (this w') = PDFJS (this w) /\
  exists o', data (this w') = VObj o' /\ wf o' /\
    forall k, get o' k = match last_write ps k with
                         | Some v => Some v
                         | None => get o k
                         end.
Proof.
  induction ps as [|p r IH]; intros w o Hs Hps Hd Ho; cbn.
  - repeat split. exists o. auto.
  - inversion Hps as [|? ? Hp Hr]; subst.
    unfold exec. rewrite (PDFJS_emit_payload (S n) p w Hs Hp). cbn [snd].
    destruct (iter_merged_obj p n o Ho) as [o1 [E1 [W1 G1]]].
    rewrite Hd, E1.
    destruct (IH (upd_this (with_data (VObj o1)) w) o1) as [Hst [Htr [Hpj [o2 [E2 [W2 G2]]]]]];
      auto.
    repeat split; auto.
    exists o2. repeat split; auto.
    intros k. rewrite G2, G1. now destruct (last_write r k).
Qed.

Lemma own_property_obj (o : object value) (k : string) :
  wf o -> own_property (VObj o) k = get o k.
Proof.
  intros Ho. unfold own_property. cbn [own_enumerable].
  rewrite get_last_NoDup by now apply keys_NoDup.
  now apply get_entries.
Qed.

Lemma iter_fixed {A : Type} (f : A -> A) (x y : A) (n : nat) :
  f x = y -> f y = y -> Nat.iter (S n) f x = y.
Proof.
  intros Hx Hy. induction n as [|n IH]; [exact Hx|].
  change (Nat.iter (S (S n)) f x) with (f (Nat.iter (S n) f x)).
  now rewrite IH.
Qed.

(** C5.  In a session started on an instance that already ran [n]
    sessions, every incremental (truthy) payload is shallow-merged into the
    result: after the payloads [ps] the result is an object in which each
    key holds the value of the last payload that has it as own property, and
    no other key.  For the payloads {a:1}, {b:2}, {a:3} the result at the
    terminal signal is {a:3, b:2}, and it is what data-ready carries. *)
Theorem payloads_merge_last_write_wins
    (n : nat) (w : World) (b : value) (ps : list value) :
  sessions_started n w ->
  Forall (fun p => truthy p = true) ps ->
  (exists o,
     data (this (run (payload_moves ps) (exec (startParsingPDF b) w))) = VObj o /\
     forall k, get o k = last_write ps k) /\
  (let w' := run (engine_moves payloads_a1_b2_a3 NoMoreData)
                 (exec (startParsingPDF b) w) in
   data (this w') = result_a3_b2 /\
   trace w' = trace (exec (startParsingPDF b) w) ++
              repeat (dataReady_signal result_a3_b2) (S n)).
Proof.
  intros Hs Hps. unfold exec. rewrite startParsingPDF_eq. cbn [snd].
  pose proof (sessions_started_started n b w Hs) as Hs1.
  split.
  - destruct (run_payloads n ps (started b w) [] Hs1 Hps eq_refl wf_nil)
      as [_ [_ [_ [o [E [_ G]]]]]].
    exists o. split; [exact E|].
    intros k. rewrite G. now destruct (last_write ps k).
  - unfold engine_moves, payloads_a1_b2_a3. rewrite run_app.
    cbn [payload_moves map run step terminal_move]. unfold exec.
    rewrite (PDFJS_emit_payload (S n) (VObj [("a", VNum 1)]));
      [|exact Hs1|reflexivity]. cbn [snd].
    rewrite (PDFJS_emit_payload (S n) (VObj [("b", VNum 2)]));
      [|exact Hs1|reflexivity]. cbn [snd].
    rewrite (PDFJS_emit_payload (S n) (VObj [("a", VNum 3)]));
      [|exact Hs1|reflexivity]. cbn [snd].
    rewrite (PDFJS_emit_no_more_data (S n)); [|exact Hs1|reflexivity].
    cbn [snd this upd_this log data with_data with_PDFJS started trace static].
    rewrite (iter_fixed (merged (VObj [("a", VNum 1)])) (VObj [])
               (VObj [("a", VNum 1)]) n); [|reflexivity|reflexivity].
    rewrite (iter_fixed (merged (VObj [("b", VNum 2)])) (VObj [("a", VNum 1)])
               (VObj [("a", VNum 1); ("b", VNum 2)]) n);
      [|reflexivity|reflexivity].
    rewrite (iter_fixed (merged (VObj [("a", VNum 3)]))
               (VObj [("a", VNum 1); ("b", VNum 2)]) result_a3_b2 n);
      [|reflexivity|reflexivity].
    split; reflexivity.
Qed.

Lemma payloads_merge_last_write_wins_witness :
  (exists o,
     data (this (run (payload_moves payloads_a1_b2_a3)
                     (exec (startParsingPDF (VBuffer [x25; x50; x44; x46]))
                           (fresh_world VNull VNull VNull)))) = VObj o /\
     forall k, get o k = last_write payloads_a1_b2_a3 k) /\
  (let w' := run (engine_moves payloads_a1_b2_a3 NoMoreData)
                 (exec (startParsingPDF (VBuffer [x25; x50; x44; x46]))
                       (fresh_world VNull VNull VNull)) in
   data (this w') = result_a3_b2 /\
   trace w' = trace (exec (startParsingPDF (VBuffer [x25; x50; x44; x46]))
                          (fresh_world VNull VNull VNull)) ++
              repeat (dataReady_signal result_a3_b2) 1).
Proof.
  apply (payloads_merge_last_write_wins 0).
  - reflexivity.
  - repeat constructor.
Defined.

(* ------------------------------------------------------------------ *)
(** * What every move preserves *)

Lemma parse_calls_app (a b : list call) :
  parse_calls (a ++ b) = parse_calls a ++ parse_calls b.
Proof. apply flat_map_app. Qed.

Lemma advances_refl w : advances w w.
Proof.
  exists []. cbn. rewrite !app_nil_r. auto.
Qed.

Lemma advances_trans w1 w2 w3 :
  advances w1 w2 -> advances w2 w3 -> advances w1 w3.
Proof.
  intros [n1 [T1 [F1 L1]]] [n2 [T2 [F2 L2]]].
  exists (n1 ++ n2). repeat split.
  - now rewrite T2, T1, app_assoc.
  - apply Forall_app; auto.
  - rewrite L2, L1, parse_calls_app, length_app, repeat_app, concat_app.
    now rewrite app_assoc.
Qed.

Lemma advances_upd_this f w : keeps_engine f -> advances w (upd_this f w).
Proof.
  intros Hf. exists []. cbn. rewrite !app_nil_r, Hf. auto.
Qed.

Lemma advances_upd_static f w : advances w (upd_static f w).
Proof. exists []. cbn. rewrite !app_nil_r. auto. Qed.

Lemma advances_log cs w :
  Forall error_seen_null cs -> parse_calls cs = [] -> advances w (log cs w).
Proof.
  intros Hcs Hp. exists cs. cbn. rewrite Hp. cbn. rewrite app_nil_r. auto.
Qed.

Lemma advances_started b w : advances w (started b w).
Proof.
  eexists. unfold started; cbn. split; [reflexivity|].
  split; [repeat constructor|]. reflexivity.
Qed.

Lemma advances_located path m w : advances w (located path m w).
Proof.
  unfold located. destruct (processFieldInfoXML (this w)).
  - eapply advances_trans;
      [|apply advances_log; [repeat constructor|reflexivity]].
    apply advances_upd_this. now intros p.
  - apply advances_upd_this. now intros p.
Qed.

Lemma advances_loadPDF path st w : advances w (exec (loadPDF path st) w).
Proof.
  destruct st as [m|e]; unfold exec.
  - rewrite loadPDF_eq. cbn [snd].
    eapply advances_trans; [apply advances_located|].
    destruct (Lodash.has _ _ _).
    + apply advances_started.
    + unfold queued, with_cache.
      eapply advances_trans;
        [|apply advances_log; [repeat constructor|reflexivity]].
      eapply advances_trans; [|apply advances_upd_this; now intros p].
      apply advances_upd_static.
  - rewrite loadPDF_stat_error. cbn [snd]. now apply advances_upd_this.
Qed.

Lemma advances_processPDFContent err d w :
  advances w (exec (processPDFContent err d) w).
Proof.
  unfold exec. destruct (truthy err) eqn:E.
  - rewrite processPDFContent_error by exact E. cbn [snd].
    eapply advances_trans;
      [|apply advances_log; [repeat constructor|reflexivity]].
    apply advances_upd_this. now intros p.
  - rewrite processPDFContent_success by exact E. cbn [snd].
    eapply advances_trans; [|apply advances_started].
    apply advances_upd_static.
Qed.

Lemma advances_readFile_done err d w :
  advances w (exec (readFile_done err d) w).
Proof.
  unfold exec, readFile_done, bind, getThis, modifyThis.
  destruct (fq (this w)) as [|path q]; cbn [snd ret].
  - apply advances_refl.
  - eapply advances_trans; [|apply advances_processPDFContent].
    apply advances_upd_this. now intros p.
Qed.

Lemma advances_call_handler h arg w :
  advances w (exec (call_handler h arg) w).
Proof.
  unfold exec. destruct h; cbn [call_handler].
  - destruct (truthy arg) eqn:E.
    + rewrite onPDFJSParseDataReady_truthy by exact E. cbn [snd].
      now apply advances_upd_this.
    + rewrite onPDFJSParseDataReady_falsy by exact E. cbn [snd].
      apply advances_log; [|reflexivity].
      constructor; [|constructor]. cbn. discriminate.
  - rewrite onPDFJSParserDataError_eq. cbn [snd].
    eapply advances_trans;
      [|apply advances_log; [repeat constructor|reflexivity]].
    apply advances_upd_this. now intros p.
Qed.

Lemma call_all_normal hs arg : forall w,
  exists w', call_all hs arg w = (Normal tt, w').
Proof.
  induction hs as [|h r IH]; intros w; cbn [call_all].
  - eexists. reflexivity.
  - unfold bind.
    assert (Hh : exists w1, call_handler h arg w = (Normal tt, w1)).
    { destruct h; cbn [call_handler].
      - destruct (truthy arg) eqn:E.
        + rewrite onPDFJSParseDataReady_truthy by exact E. now eexists.
        + rewrite onPDFJSParseDataReady_falsy by exact E. now eexists.
      - rewrite onPDFJSParserDataError_eq. now eexists. }
    destruct Hh as [w1 ->]. apply IH.
Qed.

Lemma advances_call_all hs arg : forall w,
  advances w (exec (call_all hs arg) w).
Proof.
  induction hs as [|h r IH]; intros w; cbn [call_all].
  - apply advances_refl.
  - pose proof (advances_call_handler h arg w) as Hh.
    unfold exec, bind in *.
    destruct (call_handler h arg w) as [[[]|e] w1]; cbn [snd] in *.
    + eapply advances_trans; [exact Hh | apply IH].
    + exact Hh.
Qed.

Lemma advances_step i w : advances w (exec (step i) w).
Proof.
  destruct i as [path st|b|err d|event arg]; cbn [step].
  - apply advances_loadPDF.
  - unfold exec, parseBuffer. rewrite startParsingPDF_eq. apply advances_started.
  - apply advances_readFile_done.
  - unfold PDFJS_emit, exec, bind, getThis. apply advances_call_all.
Qed.

Lemma advances_run moves : forall w, advances w (run moves w).
Proof.
  induction moves as [|i r IH]; intros w; cbn [run].
  - apply advances_refl.
  - eapply advances_trans; [apply advances_step | apply IH].
Qed.

(** ** Counting the signals *)

Lemma count_emitted_app event a b :
  count_emitted event (a ++ b) = (count_emitted event a + count_emitted event b)%nat.
Proof. unfold count_emitted. now rewrite filter_app, length_app. Qed.

Lemma count_emitted_repeat event c n :
  count_emitted event (repeat c n) = if is_emit_of event c then n else 0%nat.
Proof.
  unfold count_emitted. induction n as [|n IH]; cbn [repeat filter].
  - now destruct (is_emit_of event c).
  - destruct (is_emit_of event c); cbn [List.length]; congruence.
Qed.

Lemma dataReady_count_ready v n :
  dataReady_count (repeat (dataReady_signal v) n) = n.
Proof. apply count_emitted_repeat. Qed.

Lemma dataError_count_ready v n :
  dataError_count (repeat (dataReady_signal v) n) = 0%nat.
Proof. apply count_emitted_repeat. Qed.

Lemma dataError_count_error d n :
  dataError_count (repeat (parserError_signal d) n) = n.
Proof. apply count_emitted_repeat. Qed.

Lemma dataReady_count_error d n :
  dataReady_count (repeat (parserError_signal d) n) = 0%nat.
Proof. apply count_emitted_repeat. Qed.

(* ------------------------------------------------------------------ *)
(** * Errors clear the result *)

(** C7.  Whatever the instance has been through and whatever moves follow,
    each data-error it emits is seen with a null result, so no partial data
    is observable through the [data] getter when the signal fires; and the
    result is still null when the failing move has ended, both for a failed
    read and for an error reported by the engine. *)
Theorem data_error_clears_result :
  (forall (moves : list input) (w : World),
     Forall error_seen_null
            (since (List.length (trace w)) (trace (run moves w)))) /\
  (forall (w : World) (path : string) (q : list string) (err d : value),
     fq (this w) = path :: q -> truthy err = true ->
     data (this (exec (readFile_done err d) w)) = VNull) /\
  (forall (n : nat) (w : World) (detail : value),
     sessions_started (S n) w ->
     data (this (exec (PDFJS_emit "pdfjs_parseDataError" detail) w)) = VNull).
Proof.
  split; [|split].
  - intros moves w.
    destruct (advances_run moves w) as [new [Ht [Hf _]]].
    rewrite Ht, since_app. exact Hf.
  - intros w path q err d Hq He.
    unfold exec, readFile_done, bind, getThis, modifyThis. rewrite Hq.
    rewrite processPDFContent_error by exact He. reflexivity.
  - intros n w detail Hs. unfold exec.
    rewrite (PDFJS_emit_error n detail w Hs). reflexivity.
Qed.

Lemma data_error_clears_result_witness :
  data (this (exec (PDFJS_emit "pdfjs_parseDataError" (VStr "bad XRef"))
                   (run [CallParseBuffer pdf_bytes;
                         EngineEmit "pdfjs_parseDataReady"
                                    (VObj [("Pages", VNum 1)])]
                        (fresh_world VNull VNull VNull)))) = VNull /\
  data (this (exec (readFile_done EACCES VUndefined)
                   (run [CallParseBuffer pdf_bytes;
                         EngineEmit "pdfjs_parseDataReady"
                                    (VObj [("Pages", VNum 1)]);
                         CallLoadPDF "/tmp/a.pdf" (Stats 1700000000000)]
                        (fresh_world VNull VNull VNull)))) = VNull.
Proof.
  destruct data_error_clears_result as [_ [Hread Hengine]].
  split.
  - apply (Hengine 0%nat). reflexivity.
  - apply (Hread _ "/tmp/a.pdf" []); reflexivity.
Defined.

(* ------------------------------------------------------------------ *)
(** * Subscriptions pile up on the engine *)

Lemma sessions_started_new_world ctx needRaw pwd s :
  sessions_started 0 (new_world ctx needRaw pwd s).
Proof. reflexivity. Qed.

(** C10.  On an instance that has gone through any sequence of moves
    since its construction, let [n] be the number of parse sessions started
    (the calls of the engine's [parsePDFData]).  The engine then carries
    exactly the [n] pairs of subscriptions made by these sessions, none
    removed; a further session appends its own pair after them; and each
    engine signal calls the corresponding handler [n] times, so that the
    terminal marker produces [n] data-ready and an error [n] data-error. *)
Theorem sessions_accumulate_handlers
    (ctx needRaw pwd : value) (s : Static) (moves : list input) :
  let w := run moves (new_world ctx needRaw pwd s) in
  let n := List.length (parse_calls (trace w)) in
  sessions_started n w /\
  handlers_for "pdfjs_parseDataReady" (listeners (PDFJS (this w))) =
    repeat bound_onPDFJSParseDataReady n /\
  handlers_for "pdfjs_parseDataError" (listeners (PDFJS (this w))) =
    repeat bound_onPDFJSParserDataError n /\
  (forall b : value,
     listeners (PDFJS (this (exec (startParsingPDF b) w))) =
     listeners (PDFJS (this w)) ++ subscriptions) /\
  (forall d : value, truthy d = false ->
     dataReady_count
       (since (List.length (trace w))
              (trace (exec (PDFJS_emit "pdfjs_parseDataReady" d) w))) = n) /\
  (forall d : value,
     dataError_count
       (since (List.length (trace w))
              (trace (exec (PDFJS_emit "pdfjs_parseDataError" d) w))) = n).
Proof.
  intros w n.
  assert (Hs : sessions_started n w).
  { destruct (advances_run moves (new_world ctx needRaw pwd s))
      as [new [Ht [_ Hl]]].
    unfold sessions_started, n, w. rewrite Hl, Ht. reflexivity. }
  split; [exact Hs|].
  split; [rewrite Hs; apply handlers_for_ready|].
  split; [rewrite Hs; apply handlers_for_error|].
  split; [|split].
  - intros b. unfold exec. rewrite startParsingPDF_eq. reflexivity.
  - intros d Hd. unfold exec.
    rewrite (PDFJS_emit_no_more_data n d w Hs Hd). cbn [snd log trace].
    rewrite since_app. apply dataReady_count_ready.
  - intros d. destruct n as [|n'] eqn:En.
    + unfold exec, PDFJS_emit, bind, getThis.
      rewrite Hs, handlers_for_error. cbn.
      unfold since. now rewrite skipn_all.
    + unfold exec. rewrite (PDFJS_emit_error n' d w Hs). cbn [snd log trace upd_this].
      rewrite since_app. apply dataError_count_error.
Qed.

Lemma sessions_accumulate_handlers_witness :
  dataReady_count
    (since 2
       (trace (exec (PDFJS_emit "pdfjs_parseDataReady" VNull)
                (run [CallParseBuffer (VBuffer [x25; x50; x44; x46]);
                      CallParseBuffer (VBuffer [x25; x50; x44; x46])]
                     (new_world VNull VNull VNull static_init))))) = 2%nat.
Proof.
  destruct (sessions_accumulate_handlers VNull VNull VNull static_init
              [CallParseBuffer (VBuffer [x25; x50; x44; x46]);
               CallParseBuffer (VBuffer [x25; x50; x44; x46])])
    as [_ [_ [_ [_ [H _]]]]].
  apply (H VNull). reflexivity.
Defined.

(* ------------------------------------------------------------------ *)
(** * Terminal signals of a session *)

Lemma trace_located path m w :
  trace (located path m w) = trace w ++ field_info_calls path w.
Proof.
  unfold located, field_info_calls.
  destruct (processFieldInfoXML (this w)); cbn; [reflexivity|].
  now rewrite app_nil_r.
Qed.

Lemma quiet_field_info path w : quiet (field_info_calls path w).
Proof.
  unfold field_info_calls. destruct (processFieldInfoXML (this w));
    repeat split.
Qed.

Lemma fq_located path m w : fq (this (located path m w)) = fq (this w).
Proof. unfold located. now destruct (processFieldInfoXML (this w)). Qed.

Lemma id_located path m w : id (this (located path m w)) = id (this w).
Proof. unfold located. now destruct (processFieldInfoXML (this w)). Qed.

Lemma sessions_started_located n path m w :
  sessions_started n w -> sessions_started n (located path m w).
Proof.
  unfold sessions_started, located.
  now destruct (processFieldInfoXML (this w)).
Qed.

(** What an invocation leaves when the read queue was empty: either a
    started session, or a single raw data-error after a failed read. *)
Lemma invocation_outcome (n : nat) (w : World) (i : invocation) :
  sessions_started n w -> fq (this w) = [] ->
  let w1 := run (invocation_moves i) w in
  (exists pre b,
      trace w1 = trace w ++ pre ++ [ParsePDFData b (password (this w))] /\
      quiet pre /\ sessions_started (S n) w1 /\ data (this w1) = VObj [] /\
      fq (this w1) = []) \/
  (exists pre err,
      trace w1 = trace w ++ pre ++ [Emit "pdfParser_dataError" err VNull] /\
      quiet pre /\ sessions_started n w1 /\ data (this w1) = VNull /\
      fq (this w1) = []).
Proof.
  intros Hs Hq w1.
  destruct i as [b|path m err d]; cbn [invocation_moves run step] in w1.
  - left. unfold exec, parseBuffer in w1. subst w1.
    rewrite startParsingPDF_eq. cbn [snd].
    exists [], (or_else b (fun _ => member (binBuffer (static w)) (binBufferKey (this w)))).
    repeat split; auto. now apply sessions_started_started.
  - pose proof (sessions_started_located n path m w Hs) as Hsl.
    pose proof (quiet_field_info path w) as Hquiet.
    assert (Hquiet' : quiet (field_info_calls path w ++ [FqPush path])).
    { destruct Hquiet as [Q1 [Q2 Q3]].
      unfold quiet, dataReady_count, dataError_count in *.
      rewrite parse_calls_app, !count_emitted_app, Q1, Q2, Q3. repeat split. }
    assert (Hw1 : w1 = exec (readFile_done err d)
                    (if Lodash.has (binBuffer (static w)) false
                            (String.append path (Number_toString m))
                     then started VUndefined (located path m w)
                     else queued path (located path m w))).
    { unfold w1, exec at 2. now rewrite loadPDF_eq. }
    clearbody w1. subst w1.
    destruct (Lodash.has _ _ _).
    + left. unfold exec, readFile_done, bind, getThis.
      cbn [started this with_PDFJS with_data fq].
      rewrite fq_located, Hq. cbn [snd ret].
      eexists (field_info_calls path w), _.
      split; [|split; [exact Hquiet|split; [|split]]].
      * unfold started. cbn [trace]. rewrite trace_located, <- app_assoc.
        unfold located. destruct (processFieldInfoXML (this w)); reflexivity.
      * now apply sessions_started_started.
      * reflexivity.
      * cbn. now rewrite fq_located.
    + unfold exec, readFile_done, bind, getThis, modifyThis.
      cbn [queued log upd_this with_cache upd_static this fq with_fq].
      rewrite fq_located, Hq. cbn [app snd].
      destruct (truthy err) eqn:He.
      * right. rewrite processPDFContent_error by exact He. cbn [snd].
        exists (field_info_calls path w ++ [FqPush path]), err.
        split; [|split; [exact Hquiet'|split; [exact Hsl|split; reflexivity]]].
        cbn [log upd_this trace]. unfold queued. cbn [log upd_this trace with_cache upd_static].
        rewrite trace_located, <- !app_assoc. reflexivity.
      * left. rewrite processPDFContent_success by exact He. cbn [snd].
        eexists (field_info_calls path w ++ [FqPush path]), _.
        split; [|split; [exact Hquiet'|split; [|split; reflexivity]]].
        -- unfold started, queued. cbn [trace with_cache upd_static upd_this log].
           rewrite trace_located, <- !app_assoc.
           unfold located. destruct (processFieldInfoXML (this w)); reflexivity.
        -- apply sessions_started_started. exact Hsl.
Qed.

(** The signals of an engine that ends the parse once, on an instance
    carrying the subscriptions of [S n] sessions. *)
Lemma engine_moves_trace (n : nat) (ps : list value) (t : terminal) (w : World) :
  sessions_started (S n) w ->
  Forall (fun p => truthy p = true) ps ->
  data (this w) = VObj [] ->
  exists result,
    trace (run (engine_moves ps t) w) =
    trace w ++
    match t with
    | NoMoreData => repeat (dataReady_signal result) (S n)
    | ParseError d => repeat (parserError_signal d) (S n)
    end.
Proof.
  intros Hs Hps Hd. unfold engine_moves. rewrite run_app.
  destruct (run_payloads n ps w [] Hs Hps Hd wf_nil)
    as [_ [Ht [Hj [o [Ho _]]]]].
  assert (Hs2 : sessions_started (S n) (run (payload_moves ps) w)).
  { unfold sessions_started in *. now rewrite Hj. }
  exists (VObj o). cbn [run]. unfold exec.
  destruct t as [|d]; cbn [terminal_move step].
  - rewrite (PDFJS_emit_no_more_data (S n) VNull _ Hs2 eq_refl).
    cbn [snd log trace]. now rewrite Ht, Ho.
  - rewrite (PDFJS_emit_error n d _ Hs2).
    cbn [snd log trace upd_this]. now rewrite Ht.
Qed.

(** C3, as the code has it.  Take an instance that has already started
    [n] parse sessions and whose read queue is empty, an invocation of
    [loadPDF] or [parseBuffer], and an engine that reports incremental
    payloads and then ends the parse with one terminal signal.  When the
    invocation starts a parse, the session emits the signal matching the
    engine's terminal signal [n + 1] times and never the other one: exactly
    one signal, once, in the first session of the instance ([n = 0]).  When
    the disk read fails, it emits one data-error and no data-ready. *)
Theorem session_terminal_signals
    (n : nat) (w : World) (i : invocation) (ps : list value) (t : terminal) :
  sessions_started n w ->
  fq (this w) = [] ->
  Forall (fun p => truthy p = true) ps ->
  let w1 := run (invocation_moves i) w in
  let parsing := Nat.ltb (List.length (parse_calls (trace w)))
                         (List.length (parse_calls (trace w1))) in
  let new := since (List.length (trace w)) (trace (run_session i ps t w)) in
  (if parsing then
     match t with
     | NoMoreData => dataReady_count new = S n /\ dataError_count new = 0%nat
     | ParseError _ => dataReady_count new = 0%nat /\ dataError_count new = S n
     end
   else dataReady_count new = 0%nat /\ dataError_count new = 1%nat) /\
  (n = 0%nat -> exactly_one_terminal new).
Proof.
  intros Hs Hq Hps w1 parsing new.
  assert (Hmain :
    if parsing then
      match t with
      | NoMoreData => dataReady_count new = S n /\ dataError_count new = 0%nat
      | ParseError _ => dataReady_count new = 0%nat /\ dataError_count new = S n
      end
    else dataReady_count new = 0%nat /\ dataError_count new = 1%nat).
  { unfold new, run_session. fold w1. fold parsing.
    destruct (invocation_outcome n w i Hs Hq)
      as [[pre [b [Ht [[Q1 [Q2 Q3]] [Hs1 [Hd _]]]]]]
         |[pre [err [Ht [[Q1 [Q2 Q3]] _]]]]]; fold w1 in Ht.
    - fold w1 in Hs1, Hd. assert (Hp : parsing = true).
      { unfold parsing. rewrite Ht, !parse_calls_app, Q1, !length_app.
        cbn. apply Nat.ltb_lt. lia. }
      rewrite Hp.
      destruct (engine_moves_trace n ps t w1 Hs1 Hps Hd) as [result Hr].
      rewrite Hr, Ht, <- !app_assoc, since_app.
      unfold dataReady_count, dataError_count in *.
      destruct t as [|d]; rewrite !count_emitted_app, Q2, Q3.
      + pose proof (dataReady_count_ready result (S n)) as C1.
        pose proof (dataError_count_ready result (S n)) as C2.
        unfold dataReady_count, dataError_count in C1, C2.
        rewrite C1, C2. cbn. split; lia.
      + pose proof (dataReady_count_error d (S n)) as C1.
        pose proof (dataError_count_error d (S n)) as C2.
        unfold dataReady_count, dataError_count in C1, C2.
        rewrite C1, C2. cbn. split; lia.
    - assert (Hp : parsing = false).
      { unfold parsing. rewrite Ht, !parse_calls_app, Q1, !length_app.
        cbn. apply Nat.ltb_ge. lia. }
      rewrite Hp, Ht, since_app.
      unfold dataReady_count, dataError_count in *.
      rewrite !count_emitted_app, Q2, Q3. cbn. split; reflexivity. }
  split; [exact Hmain|].
  intros ->. unfold exactly_one_terminal.
  destruct parsing; [destruct t|]; tauto.
Qed.

Lemma session_terminal_signals_witness :
  exactly_one_terminal
    (since 0 (trace (run_session (LoadPDF "/tmp/a.pdf" 1700000000000 VNull pdf_bytes)
                                 [VObj [("page1", VObj [])]] NoMoreData
                                 (fresh_world VNull VNull VNull)))).
Proof.
  apply (session_terminal_signals 0
           (fresh_world VNull VNull VNull)
           (LoadPDF "/tmp/a.pdf" 1700000000000 VNull pdf_bytes)
           [VObj [("page1", VObj [])]] NoMoreData).
  - reflexivity.
  - reflexivity.
  - repeat constructor.
  - reflexivity.
Defined.

(** C3, as stated, fails on the second session of an instance: after one
    [parseBuffer] session has ended, a second [parseBuffer] whose parse the
    engine ends with the null marker emits data-ready twice. *)
Lemma second_session_signals_twice :
  let new := since (List.length (trace after_one_session))
                   (trace (run_session (ParseBuffer pdf_bytes) [] NoMoreData
                                       after_one_session)) in
  dataReady_count new = 2%nat /\ ~ exactly_one_terminal new.
Proof.
  cbv zeta. split; [reflexivity|].
  intros [[H _]|[H _]]; vm_compute in H; discriminate.
Qed.

(* ------------------------------------------------------------------ *)
(** * Cache hits *)

Lemma password_located path m w :
  password (this (located path m w)) = password (this w).
Proof. unfold located. now destruct (processFieldInfoXML (this w)). Qed.

Lemma queued_reads_app (a b : list call) :
  queued_reads (a ++ b) = queued_reads a ++ queued_reads b.
Proof. apply flat_map_app. Qed.

Lemma queued_reads_field_info path w : queued_reads (field_info_calls path w) = [].
Proof. unfold field_info_calls. now destruct (processFieldInfoXML (this w)). Qed.

Lemma parse_calls_field_info path w : parse_calls (field_info_calls path w) = [].
Proof. unfold field_info_calls. now destruct (processFieldInfoXML (this w)). Qed.

Lemma trace_started b w :
  trace (started b w) =
  trace w ++
  [ParsePDFData
     (or_else b (fun _ => member (binBuffer (static w)) (binBufferKey (this w))))
     (password (this w))].
Proof. reflexivity. Qed.

(** ** The gate of the cache *)

(** A key that is an own property of the cache is found. *)
Lemma Lodash_has_own (o : object value) (b : bool) (k : string) :
  has o k = true -> Lodash.has o b k = true.
Proof.
  intros H. unfold Lodash.has, Lodash.castPath, Lodash.isKey.
  rewrite H, !orb_true_r. cbn. now rewrite H.
Qed.

Lemma Lodash_has_false_own (o : object value) (b : bool) (k : string) :
  Lodash.has o b k = false -> has o k = false.
Proof.
  intros H. destruct (has o k) eqn:E; [|reflexivity].
  now rewrite (Lodash_has_own o b k E) in H.
Qed.

(** A key that is a number, or a string without a dot or a bracket group,
    is looked up as it is. *)
Lemma Lodash_has_key (o : object value) (b : bool) (k : string) :
  (b || negb (Lodash.reIsDeepProp k)) = true -> Lodash.has o b k = has o k.
Proof.
  intros H. unfold Lodash.has, Lodash.castPath, Lodash.isKey.
  replace (b || Lodash.reIsPlainProp k || negb (Lodash.reIsDeepProp k) || has o k)
    with true.
  - cbn. apply andb_true_r.
  - symmetry. destruct b; [reflexivity|]. cbn in H. rewrite H.
    now rewrite orb_true_r.
Qed.

(** The two ways of finding a key: as an own property, or, for a string
    with a dot or a bracket group, by following its segments. *)
Lemma Lodash_has_cases (o : object value) (b : bool) (k : string) :
  Lodash.has o b k =
  has o k
  || (negb (b || Lodash.reIsPlainProp k || negb (Lodash.reIsDeepProp k))
      && Lodash.hasPath (VObj o) (Lodash.stringToPath k)).
Proof.
  unfold Lodash.has, Lodash.castPath, Lodash.isKey.
  destruct (has o k) eqn:E.
  - rewrite !orb_true_r. cbn. now rewrite E.
  - rewrite orb_false_r.
    destruct (b || Lodash.reIsPlainProp k || negb (Lodash.reIsDeepProp k));
      cbn; [now rewrite E | reflexivity].
Qed.

(** Removing an entry never makes a key found. *)
Lemma has_delete_true {V : Type} (o : object V) x k :
  has (delete o x) k = true -> has o k = true.
Proof.
  unfold has. rewrite get_delete. now destruct (String.eqb k x).
Qed.

Lemma follow_delete (o : object value) (x : string) (path : list string) :
  Lodash.follow (VObj (delete o x)) path = true ->
  Lodash.follow (VObj o) path = true.
Proof.
  destruct path as [|key rest]; [reflexivity|].
  cbn [Lodash.follow Lodash.baseHas Lodash.at_key].
  unfold has. rewrite get_delete.
  now destruct (String.eqb key x).
Qed.

Lemma Lodash_has_delete (o : object value) (b : bool) (x k : string) :
  Lodash.has o b k = false -> Lodash.has (delete o x) b k = false.
Proof.
  intros H. destruct (Lodash.has (delete o x) b k) eqn:E; [|reflexivity].
  rewrite Lodash_has_cases in H, E.
  apply orb_false_iff in H. destruct H as [Hown Hpath].
  apply orb_true_iff in E. destruct E as [E|E].
  - apply has_delete_true in E. congruence.
  - apply andb_true_iff in E. destruct E as [Eg Ep]. rewrite Eg in Hpath.
    cbn in Hpath. unfold Lodash.hasPath in *.
    destruct (Lodash.stringToPath k); [discriminate|].
    apply follow_delete in Ep. congruence.
Qed.

Lemma Lodash_has_recycled (i : N) (o : object value) (b : bool) (k : string) :
  Lodash.has o b k = false -> Lodash.has (recycled i o) b k = false.
Proof.
  intros H. unfold recycled.
  destruct (maxBinBufferCount <? N.of_nat (List.length (keys o)))%N; [|exact H].
  now apply Lodash_has_delete.
Qed.

(** A load whose key the gate finds in the cache. *)
Lemma loadPDF_hit path m w :
  Lodash.has (binBuffer (static w)) false
             (String.append path (Number_toString m)) = true ->
  let w' := exec (loadPDF path (Stats m)) w in
  w' = started VUndefined (located path m w) /\
  static w' = static w /\
  fq (this w') = fq (this w) /\
  trace w' =
    trace w ++ field_info_calls path w ++
    [ParsePDFData
       (member (binBuffer (static w)) (String.append path (Number_toString m)))
       (password (this w))].
Proof.
  intros Hhas w'. unfold w', exec. rewrite loadPDF_eq, Hhas. cbn [snd].
  split; [reflexivity|]. split; [apply static_located|].
  split; [cbn; apply fq_located|].
  rewrite trace_started, trace_located, static_located, binBufferKey_located,
    password_located, <- app_assoc.
  reflexivity.
Qed.

Lemma member_set_same o k v : member (set o k v) k = v.
Proof. unfold member. now rewrite get_set_same. Qed.

Lemma has_set_same {V : Type} (o : object V) k v : has (set o k v) k = true.
Proof. unfold has. now rewrite get_set_same. Qed.

Lemma binBuffer_queued path w :
  binBuffer (static (queued path w)) =
  recycled (id (this w)) (binBuffer (static w)).
Proof. reflexivity. Qed.

Lemma binBufferKey_queued path q w :
  binBufferKey (with_fq q (this (queued path w))) = binBufferKey (this w).
Proof. reflexivity. Qed.

Lemma password_queued path w :
  password (this (queued path w)) = password (this w).
Proof. reflexivity. Qed.

Lemma trace_queued path w : trace (queued path w) = trace w ++ [FqPush path].
Proof. reflexivity. Qed.

(** A load whose key is not in the cache, followed by the success of its
    read. *)
Lemma loadPDF_miss_then_read path m d w :
  Lodash.has (binBuffer (static w)) false
             (String.append path (Number_toString m)) = false ->
  fq (this w) = [] ->
  let key := String.append path (Number_toString m) in
  let w1 := run [CallLoadPDF path (Stats m); ReadFileDone VNull d] w in
  binBuffer (static w1) =
    set (recycled (id (this w)) (binBuffer (static w))) key d /\
  fq (this w1) = [] /\
  password (this w1) = password (this w) /\
  trace w1 =
    trace w ++ field_info_calls path w ++
    [FqPush path; ParsePDFData d (password (this w))].
Proof.
  intros Hmiss Hq key w1.
  assert (Hw1 : w1 = exec (readFile_done VNull d) (queued path (located path m w))).
  { unfold w1. cbn [run step]. unfold exec at 2. now rewrite loadPDF_eq, Hmiss. }
  clearbody w1. subst w1.
  unfold exec, readFile_done, bind, getThis, modifyThis.
  cbn [queued log upd_this with_cache upd_static this fq with_fq].
  rewrite fq_located, Hq. cbn [app snd].
  rewrite processPDFContent_success by reflexivity. cbn [snd].
  cbn [started with_cache upd_static upd_this log this static trace binBuffer
       with_binBuffer with_PDFJS with_data with_fq fq password binBufferKey
       pdfFilePath pdfFileMTime].
  rewrite binBuffer_queued, binBufferKey_queued, password_queued, trace_queued.
  rewrite binBufferKey_located, static_located, id_located, password_located,
    trace_located.
  fold key. repeat split.
  rewrite <- !app_assoc. cbn [app]. unfold or_else. cbn [truthy].
  now rewrite member_set_same.
Qed.

Lemma loadPDF_hit_then_idle path m err d w :
  Lodash.has (binBuffer (static w)) false
             (String.append path (Number_toString m)) = true ->
  fq (this w) = [] ->
  run [CallLoadPDF path (Stats m); ReadFileDone err d] w =
  exec (loadPDF path (Stats m)) w.
Proof.
  intros Hhas Hq. cbn [run step].
  destruct (loadPDF_hit path m w Hhas) as [_ [_ [Hfq _]]].
  unfold exec at 1. unfold readFile_done, bind, getThis.
  rewrite Hfq, Hq. reflexivity.
Qed.

(** C6.  A load whose cache key ([filePath] followed by [fileMTime]) is
    bound to bytes in the cache queues no read, leaves the cache and the
    read queue untouched and hands the cached bytes to the engine; more
    generally a load whose key [_.has] finds in the cache queues no read
    and hands the engine what the cache holds under the key.  Hence two
    loads of the same path with the same modification time, the second made
    once the read of the first (if any) has succeeded and no other read is
    pending, queue at most one read in all: the second load queues none and
    parses what the cache holds, which is what the first read returned when
    the first load missed the cache. *)
Theorem cache_hit_avoids_read :
  (forall (w : World) (path : string) (m : jsnumber) (bytes : list byte),
     get (binBuffer (static w)) (String.append path (Number_toString m)) =
       Some (VBuffer bytes) ->
     let w' := exec (loadPDF path (Stats m)) w in
     let new := since (List.length (trace w)) (trace w') in
     queued_reads new = [] /\
     fq (this w') = fq (this w) /\
     static w' = static w /\
     parse_calls new = [(VBuffer bytes, password (this w))]) /\
  (forall (w : World) (path : string) (m : jsnumber),
     let key := String.append path (Number_toString m) in
     Lodash.has (binBuffer (static w)) false key = true ->
     let w' := exec (loadPDF path (Stats m)) w in
     let new := since (List.length (trace w)) (trace w') in
     queued_reads new = [] /\
     fq (this w') = fq (this w) /\
     static w' = static w /\
     parse_calls new = [(member (binBuffer (static w)) key, password (this w))]) /\
  (forall (w : World) (path : string) (m : jsnumber) (bytes : list byte),
     fq (this w) = [] ->
     let key := String.append path (Number_toString m) in
     let w1 := run [CallLoadPDF path (Stats m);
                    ReadFileDone VNull (VBuffer bytes)] w in
     let w2 := exec (loadPDF path (Stats m)) w1 in
     List.length (queued_reads (since (List.length (trace w)) (trace w2))) <= 1 /\
     queued_reads (since (List.length (trace w1)) (trace w2)) = [] /\
     Lodash.has (binBuffer (static w1)) false key = true /\
     static w2 = static w1 /\
     parse_calls (since (List.length (trace w1)) (trace w2)) =
       [(member (binBuffer (static w1)) key, password (this w))] /\
     (Lodash.has (binBuffer (static w)) false key = false ->
      get (binBuffer (static w1)) key = Some (VBuffer bytes) /\
      queued_reads (since (List.length (trace w)) (trace w1)) = [path])).
Proof.
  assert (Hgate : forall (w : World) (path : string) (m : jsnumber),
     let key := String.append path (Number_toString m) in
     Lodash.has (binBuffer (static w)) false key = true ->
     let w' := exec (loadPDF path (Stats m)) w in
     let new := since (List.length (trace w)) (trace w') in
     queued_reads new = [] /\
     fq (this w') = fq (this w) /\
     static w' = static w /\
     parse_calls new = [(member (binBuffer (static w)) key, password (this w))]).
  { intros w path m key Hhas w' new.
    destruct (loadPDF_hit path m w Hhas) as [_ [Hst [Hfq Ht]]].
    fold w' in Hst, Hfq, Ht. unfold new. rewrite Ht, since_app.
    rewrite queued_reads_app, parse_calls_app, queued_reads_field_info,
      parse_calls_field_info.
    repeat split; auto. }
  split; [|split; [exact Hgate|]].
  - intros w path m bytes Hget w' new.
    assert (Hhas : Lodash.has (binBuffer (static w)) false
                       (String.append path (Number_toString m)) = true).
    { apply Lodash_has_own. unfold has. now rewrite Hget. }
    destruct (Hgate w path m Hhas) as [H1 [H2 [H3 H4]]].
    fold w' in H1, H2, H3, H4. fold new in H1, H4.
    unfold member in H4. rewrite Hget in H4. repeat split; auto.
  - intros w path m bytes Hq key w1 w2.
    assert (H1 : Lodash.has (binBuffer (static w1)) false key = true /\
                 password (this w1) = password (this w) /\
                 (exists mid, trace w1 = trace w ++ mid /\
                              List.length (queued_reads mid) <= 1) /\
                 (Lodash.has (binBuffer (static w)) false key = false ->
                  get (binBuffer (static w1)) key = Some (VBuffer bytes) /\
                  queued_reads (since (List.length (trace w)) (trace w1)) =
                    [path])).
    { destruct (Lodash.has (binBuffer (static w)) false key) eqn:Hhas.
      - unfold w1. rewrite loadPDF_hit_then_idle by assumption.
        destruct (loadPDF_hit path m w Hhas) as [E [Hst [_ Ht]]].
        rewrite Hst. split; [exact Hhas|]. split.
        + rewrite E. cbn. apply password_located.
        + split; [|discriminate].
          eexists. split; [exact Ht|].
          rewrite queued_reads_app, queued_reads_field_info. cbn. lia.
      - destruct (loadPDF_miss_then_read path m (VBuffer bytes) w Hhas Hq)
          as [Hc [_ [Hp Ht]]].
        fold w1 in Hc, Hp, Ht. fold key in Hc.
        split; [rewrite Hc; apply Lodash_has_own, has_set_same|].
        split; [exact Hp|]. split.
        + eexists. split; [exact Ht|].
          rewrite queued_reads_app, queued_reads_field_info. cbn. lia.
        + intros _. split; [rewrite Hc; apply get_set_same|].
          rewrite Ht, since_app, queued_reads_app, queued_reads_field_info.
          reflexivity. }
    destruct H1 as [Hhas1 [Hp1 [[mid [Ht1 Hmid]] Hbytes]]].
    destruct (loadPDF_hit path m w1 Hhas1) as [_ [Hst2 [_ Ht2]]].
    fold w2 in Hst2, Ht2. fold key in Ht2.
    assert (Hnew : since (List.length (trace w1)) (trace w2) =
                   field_info_calls path w1 ++
                   [ParsePDFData (member (binBuffer (static w1)) key)
                                 (password (this w))]).
    { rewrite Ht2, since_app, Hp1. reflexivity. }
    split; [|split; [|split; [exact Hhas1|split; [exact Hst2|split; [|exact Hbytes]]]]].
    + rewrite Ht2, Ht1, <- app_assoc, since_app.
      rewrite !queued_reads_app, queued_reads_field_info. cbn.
      rewrite app_nil_r. exact Hmid.
    + rewrite Hnew, queued_reads_app, queued_reads_field_info. reflexivity.
    + rewrite Hnew, parse_calls_app, parse_calls_field_info. reflexivity.
Qed.

Lemma cache_hit_avoids_read_witness :
  let w := fresh_world VNull VNull VNull in
  let w1 := run [CallLoadPDF "/tmp/a.pdf" (Stats 1700000000000);
                 ReadFileDone VNull pdf_bytes] w in
  let w2 := exec (loadPDF "/tmp/a.pdf" (Stats 1700000000000)) w1 in
  (queued_reads (since (List.length (trace w1)) (trace w2)) = [] /\
   fq (this w2) = fq (this w1) /\
   static w2 = static w1 /\
   parse_calls (since (List.length (trace w1)) (trace w2)) =
     [(pdf_bytes, password (this w1))]) /\
  List.length (queued_reads (since (List.length (trace w)) (trace w2))) <= 1.
Proof.
  destruct cache_hit_avoids_read as [Hhit [_ Htwice]].
  split.
  - apply (Hhit (run [CallLoadPDF "/tmp/a.pdf" (Stats 1700000000000);
                      ReadFileDone VNull pdf_bytes]
                     (fresh_world VNull VNull VNull))
                "/tmp/a.pdf" 1700000000000%Z [x25; x50; x44; x46]).
    reflexivity.
  - apply (Htwice (fresh_world VNull VNull VNull)
                  "/tmp/a.pdf" 1700000000000%Z [x25; x50; x44; x46]).
    reflexivity.
Defined.

(** C6, the claim as it is worded.  Two loads of the same path with the
    same modification time, the second made while the read of the first is
    still pending, queue two reads of the file: the cache is filled only
    when a read completes, and nothing records the reads in flight. *)
Lemma overlapping_loads_read_twice :
  let w := fresh_world VNull VNull VNull in
  let w2 := run [CallLoadPDF "/tmp/a.pdf" (Stats 1700000000000);
                 CallLoadPDF "/tmp/a.pdf" (Stats 1700000000000)] w in
  queued_reads (since (List.length (trace w)) (trace w2)) =
    ["/tmp/a.pdf"; "/tmp/a.pdf"] /\
  fq (this w2) = ["/tmp/a.pdf"; "/tmp/a.pdf"] /\
  ~ List.length (queued_reads (since (List.length (trace w)) (trace w2))) <= 1.
Proof.
  vm_compute. repeat split. intros H.
  apply Nat.succ_le_mono in H. inversion H.
Qed.

(* ------------------------------------------------------------------ *)
(** * The recycling step of the cache *)

(** C2.  When [#processBinaryCache] reaches its recycling step ([_.has] does
    not find the key of the load in the cache) with more than [#maxBinBufferCount] entries in
    the cache, it removes exactly one entry: the key found at index
    [id % #maxBinBufferCount] of the cache's current key list, taken in the
    object's own enumeration order.  The key list loses this key and keeps
    the others in order, the count drops by one, and every other entry is
    left as it was.  Nothing else changes. *)
Theorem eviction_removes_indexed_key (w : World) :
  wf (binBuffer (static w)) ->
  has_binBuffer (static w) (this w) = false ->
  (maxBinBufferCount < N.of_nat (List.length (keys (binBuffer (static w)))))%N ->
  let cache := binBuffer (static w) in
  exists key : string,
    nth_error (keys cache) (N.to_nat (id (this w) mod maxBinBufferCount)) =
      Some key /\
    processBinaryCache w = (Normal false, with_cache (delete cache key) w) /\
    keys (delete cache key) =
      filter (fun k => negb (String.eqb k key)) (keys cache) /\
    S (List.length (keys (delete cache key))) = List.length (keys cache) /\
    forall k, get (delete cache key) k =
              if String.eqb k key then None else get cache k.
Proof.
  intros Hwf Hmiss Hover cache. fold cache in Hwf, Hmiss, Hover.
  assert (Hidx : (N.to_nat (id (this w) mod maxBinBufferCount)
                  < List.length (keys cache))%nat).
  { assert (id (this w) mod maxBinBufferCount < maxBinBufferCount)%N
      by (apply N.mod_lt; discriminate).
    lia. }
  destruct (nth_error (keys cache) (N.to_nat (id (this w) mod maxBinBufferCount)))
    as [key|] eqn:Hnth; [|apply nth_error_None in Hnth; lia].
  exists key. split; [reflexivity|]. split; [|split; [|split]].
  - rewrite processBinaryCache_miss by exact Hmiss.
    fold cache. unfold recycled, victim. fold cache.
    apply N.ltb_lt in Hover. now rewrite Hover, Hnth.
  - apply keys_delete.
  - rewrite keys_delete. apply filter_out_length.
    + now apply keys_NoDup.
    + eapply nth_error_In. exact Hnth.
  - intros k. apply get_delete.
Qed.

Lemma eviction_removes_indexed_key_witness :
  let w := exec (modifyThis (fun p => with_pdfFileMTime (Some (integer 1700000000000))
                                        (with_pdfFilePath (Some "/tmp/new.pdf") p)))
                (run (sequential_loads 11) (fresh_world VNull VNull VNull)) in
  exists key : string,
    nth_error (keys (binBuffer (static w)))
              (N.to_nat (id (this w) mod maxBinBufferCount)) = Some key /\
    processBinaryCache w =
      (Normal false, with_cache (delete (binBuffer (static w)) key) w) /\
    keys (delete (binBuffer (static w)) key) =
      filter (fun k => negb (String.eqb k key)) (keys (binBuffer (static w))) /\
    S (List.length (keys (delete (binBuffer (static w)) key))) =
      List.length (keys (binBuffer (static w))) /\
    forall k, get (delete (binBuffer (static w)) key) k =
              if String.eqb k key then None else get (binBuffer (static w)) k.
Proof.
  intros w. apply (eviction_removes_indexed_key w).
  - unfold wf. vm_compute.
    repeat (constructor; [intros H; cbn in H; intuition discriminate|]).
    constructor.
  - vm_compute. reflexivity.
  - vm_compute. reflexivity.
Defined.

(* ------------------------------------------------------------------ *)
(** * Size of the cache *)

Lemma length_set_le {V : Type} (o : object V) k v :
  (List.length (set o k v) <= S (List.length o))%nat.
Proof.
  induction o as [|[k0 v0] r IH]; cbn; [lia|].
  destruct (String.eqb k0 k); cbn; lia.
Qed.

Lemma length_delete_lt {V : Type} (o : object V) k :
  In k (map fst o) -> (List.length (delete o k) < List.length o)%nat.
Proof.
  unfold delete. induction o as [|[k0 v0] r IH]; cbn; [tauto|].
  intros [E|Hin].
  - subst k0. rewrite String.eqb_refl. cbn.
    pose proof (filter_length_le (fun e : string * V => negb (String.eqb (fst e) k)) r).
    lia.
  - specialize (IH Hin). destruct (String.eqb k0 k); cbn; lia.
Qed.

(** After the recycling step the cache holds at most [#maxBinBufferCount]
    entries if it held at most one more before. *)
Lemma recycled_count (i : N) (o : object value) :
  (List.length (keys o) <= 11)%nat ->
  (List.length (keys (recycled i o)) <= 10)%nat.
Proof.
  intros Hle. unfold recycled.
  destruct (maxBinBufferCount <? N.of_nat (List.length (keys o)))%N eqn:E.
  - apply N.ltb_lt in E. unfold maxBinBufferCount in E.
    unfold victim.
    destruct (nth_error (keys o) (N.to_nat (i mod maxBinBufferCount))) as [k|] eqn:Hn.
    + apply nth_error_In in Hn.
      apply (Permutation_in _ (keys_perm o)) in Hn.
      pose proof (length_delete_lt o k Hn).
      rewrite !keys_length in *. lia.
    + apply nth_error_None in Hn.
      assert (i mod maxBinBufferCount < maxBinBufferCount)%N
        by (apply N.mod_lt; discriminate).
      unfold maxBinBufferCount in *. lia.
  - apply N.ltb_ge in E. unfold maxBinBufferCount in E. lia.
Qed.

(** Loads that do not overlap keep the cache within
    [#maxBinBufferCount + 1] entries at rest. *)
Lemma sequential_loads_bound (loads : list (string * jsnumber * value)) :
  forall w : World,
    fq (this w) = [] ->
    (binBuffer_count w <= 11)%nat ->
    let w' := run (flat_map load_then_read loads) w in
    fq (this w') = [] /\ (binBuffer_count w' <= 11)%nat.
Proof.
  induction loads as [|[[path m] d] r IH]; intros w Hq Hc; cbn [flat_map].
  - cbn. auto.
  - cbv zeta. rewrite run_app. apply IH.
    + unfold load_then_read.
      destruct (Lodash.has (binBuffer (static w)) false
                         (String.append path (Number_toString m)))
        eqn:Hhas.
      * rewrite loadPDF_hit_then_idle by assumption.
        destruct (loadPDF_hit path m w Hhas) as [_ [_ [Hfq _]]]. congruence.
      * now destruct (loadPDF_miss_then_read path m d w Hhas Hq) as [_ [Hfq _]].
    + unfold load_then_read, binBuffer_count in *.
      destruct (Lodash.has (binBuffer (static w)) false
                         (String.append path (Number_toString m)))
        eqn:Hhas.
      * rewrite loadPDF_hit_then_idle by assumption.
        destruct (loadPDF_hit path m w Hhas) as [_ [Hst _]]. now rewrite Hst.
      * destruct (loadPDF_miss_then_read path m d w Hhas Hq) as [Hcache _].
        rewrite Hcache, keys_length.
        pose proof (length_set_le (recycled (id (this w)) (binBuffer (static w)))
                      (String.append path (Number_toString m)) d).
        pose proof (recycled_count (id (this w)) (binBuffer (static w)) Hc).
        rewrite keys_length in *. lia.
Qed.

(** C1.  Eleven files loaded one after the other on a new instance, each
    read completed before the next load: once the eleventh load has made its
    recycling check and its insert, the cache holds 11 entries, one more
    than [#maxBinBufferCount], with no read pending.  A twelfth load
    recycles one entry and inserts its own, and the cache is back at 11. *)
Theorem cache_exceeds_max_at_rest :
  let w11 := run (sequential_loads 11) (fresh_world VNull VNull VNull) in
  let w12 := run (sequential_loads 12) (fresh_world VNull VNull VNull) in
  binBuffer_count w11 = 11%nat /\
  fq (this w11) = [] /\
  (maxBinBufferCount < N.of_nat (binBuffer_count w11))%N /\
  binBuffer_count w12 = 11%nat /\
  fq (this w12) = [].
Proof.
  cbv zeta. repeat split; vm_compute; reflexivity.
Qed.

(* ------------------------------------------------------------------ *)
(** * Cache keys and names *)

Lemma append_cons (x : ascii) (a b : string) :
  String.append (String x a) b = String x (String.append a b).
Proof. reflexivity. Qed.

Lemma append_assoc (a b c : string) :
  String.append (String.append a b) c = String.append a (String.append b c).
Proof.
  induction a as [|x a IH]; [reflexivity|].
  now rewrite !append_cons, IH.
Qed.

Lemma append_cancel_l (p a b : string) :
  String.append p a = String.append p b -> a = b.
Proof.
  induction p as [|x p IH]; intros H; [exact H|].
  rewrite !append_cons in H. apply IH. now inversion H.
Qed.

Lemma to_int_not_nil (z : Z) :
  Z.to_int z <> Decimal.Pos Decimal.Nil /\ Z.to_int z <> Decimal.Neg Decimal.Nil.
Proof.
  destruct z as [|p|p]; cbn; split; try discriminate;
    intros H; inversion H as [H']; now apply DecimalPos.Unsigned.to_uint_nonnil in H'.
Qed.

Lemma Integer_toString_inj (z z' : Z) :
  Integer_toString z = Integer_toString z' -> z = z'.
Proof.
  unfold Integer_toString. intros H.
  apply DecimalZ.to_int_inj.
  destruct (to_int_not_nil z) as [A B], (to_int_not_nil z') as [A' B'].
  pose proof (NilZero.isi _ A B) as E. pose proof (NilZero.isi _ A' B') as E'.
  rewrite H in E. congruence.
Qed.

(** The rendering of an integer has no point: it is its own longest prefix
    without one. *)
Lemma span_digits (d : Decimal.uint) :
  Lodash.span (fun c => negb (Ascii.eqb c ".")) (NilEmpty.string_of_uint d) =
  (NilEmpty.string_of_uint d, EmptyString).
Proof. induction d; cbn; try rewrite IHd; reflexivity. Qed.

Lemma span_Integer_toString (z : Z) :
  Lodash.span (fun c => negb (Ascii.eqb c ".")) (Integer_toString z) =
  (Integer_toString z, EmptyString).
Proof.
  unfold Integer_toString, NilZero.string_of_int, NilZero.string_of_uint.
  destruct (Z.to_int z) as [d|d].
  - destruct d; try apply span_digits; reflexivity.
  - destruct d; cbn; try rewrite span_digits; reflexivity.
Qed.

Lemma span_append_point (a b : string) :
  Lodash.span (fun c => negb (Ascii.eqb c ".")) a = (a, EmptyString) ->
  Lodash.span (fun c => negb (Ascii.eqb c ".")) (String.append a (String "." b)) =
  (a, String "." b).
Proof.
  induction a as [|c a IH]; [reflexivity|].
  rewrite append_cons. cbn.
  destruct (negb (Ascii.eqb c ".")); [|discriminate].
  destruct (Lodash.span _ a) as [x y] eqn:E. intros [= -> ->].
  now rewrite IH.
Qed.

Lemma append_nil_r (a : string) : String.append a EmptyString = a.
Proof. induction a as [|c a IH]; [reflexivity|]. now rewrite append_cons, IH. Qed.

(** A number is where its rendering has the point: the integer part before
    it and the rest after it. *)
Lemma span_Number_toString (n : jsnumber) :
  Lodash.span (fun c => negb (Ascii.eqb c ".")) (Number_toString n) =
  (Integer_toString (whole n),
   match NilEmpty.string_of_uint (fraction n) with
   | EmptyString => EmptyString
   | digits => String "." digits
   end).
Proof.
  unfold Number_toString.
  destruct (NilEmpty.string_of_uint (fraction n)).
  - rewrite append_nil_r. apply span_Integer_toString.
  - apply span_append_point, span_Integer_toString.
Qed.

Lemma Number_toString_inj (n n' : jsnumber) :
  Number_toString n = Number_toString n' -> n = n'.
Proof.
  intros H.
  pose proof (span_Number_toString n) as E.
  rewrite H, span_Number_toString in E.
  injection E as Ew Ef.
  apply Integer_toString_inj in Ew.
  assert (Es : NilEmpty.string_of_uint (fraction n') =
               NilEmpty.string_of_uint (fraction n)).
  { destruct (NilEmpty.string_of_uint (fraction n')),
             (NilEmpty.string_of_uint (fraction n)); congruence. }
  assert (Eu : Some (fraction n') = Some (fraction n)).
  { rewrite <- !NilEmpty.usu. now rewrite Es. }
  destruct n, n'; cbn in *. congruence.
Qed.

Lemma integer_inj (z z' : Z) : integer z = integer z' -> z = z'.
Proof. now intros [= ->]. Qed.

(** X1.  The [name] getter identifies the instance: two instances have the
    same name exactly when they have the same id. *)
Theorem name_identifies_instance (p q : PDFParser) :
  name p = name q <-> id p = id q.
Proof.
  unfold name. split.
  - intros H. apply append_cancel_l, Number_toString_inj, integer_inj in H.
    now apply N2Z.inj.
  - now intros ->.
Qed.

Lemma binBufferKey_inj_mtime (path : string) (m1 m2 : jsnumber) :
  String.append path (Number_toString m1) =
  String.append path (Number_toString m2) -> m1 = m2.
Proof. intros H. now apply append_cancel_l, Number_toString_inj in H. Qed.

(* ------------------------------------------------------------------ *)
(** * Loads, one after the other and overlapping *)

Lemma recycled_within (i : N) (o : object value) :
  (List.length (keys o) <= 10)%nat -> recycled i o = o.
Proof.
  intros H. unfold recycled.
  destruct (maxBinBufferCount <? N.of_nat (List.length (keys o)))%N eqn:E;
    [|reflexivity].
  apply N.ltb_lt in E. unfold maxBinBufferCount in E. lia.
Qed.

Lemma has_recycled_false (i : N) (o : object value) (k : string) :
  has o k = false -> has (recycled i o) k = false.
Proof.
  intros H. unfold recycled.
  destruct (maxBinBufferCount <? N.of_nat (List.length (keys o)))%N; [|exact H].
  unfold has in *. rewrite get_delete.
  destruct (String.eqb k (victim i o)); [reflexivity | exact H].
Qed.

Lemma has_set_other {V : Type} (o : object V) k v k' :
  k' <> k -> has (set o k v) k' = has o k'.
Proof. intros H. unfold has. now rewrite get_set_other. Qed.

Lemma length_set_new {V : Type} (o : object V) k v :
  has o k = false -> List.length (set o k v) = S (List.length o).
Proof.
  intros H. rewrite <- (length_map fst), map_fst_set, H, length_app, length_map.
  cbn. lia.
Qed.

(** A load followed by the success of the read it may have queued. *)
Lemma load_then_read_cached path m d w :
  fq (this w) = [] ->
  let key := String.append path (Number_toString m) in
  let w1 := run (load_then_read (path, m, d)) w in
  Lodash.has (binBuffer (static w1)) false key = true /\
  password (this w1) = password (this w) /\
  fq (this w1) = [] /\
  (Lodash.has (binBuffer (static w)) false key = false ->
   binBuffer (static w1) =
     set (recycled (id (this w)) (binBuffer (static w))) key d /\
   trace w1 = trace w ++ field_info_calls path w ++
              [FqPush path; ParsePDFData d (password (this w))]) /\
  (Lodash.has (binBuffer (static w)) false key = true ->
   static w1 = static w /\
   trace w1 = trace w ++ field_info_calls path w ++
              [ParsePDFData (member (binBuffer (static w)) key)
                            (password (this w))]).
Proof.
  intros Hq key w1. unfold w1, load_then_read.
  destruct (Lodash.has (binBuffer (static w)) false key) eqn:Hhas.
  - rewrite loadPDF_hit_then_idle by assumption.
    destruct (loadPDF_hit path m w Hhas) as [E [Hst [Hfq Ht]]].
    rewrite Hst. repeat split; auto; try discriminate.
    + rewrite E. cbn. apply password_located.
    + congruence.
  - destruct (loadPDF_miss_then_read path m d w Hhas Hq) as [Hc [Hfq [Hp Ht]]].
    fold key in Hc. repeat split; auto; try discriminate.
    rewrite Hc. apply Lodash_has_own, has_set_same.
Qed.

(** X2.  Cache key sensitivity.  Two completed loads of the same path at two
    different modification times, with room left under
    [#maxBinBufferCount], each missing the cache ([_.has] finds neither the
    first key in the cache as it is, nor the second key once the first read
    is cached), each queue their own read and leave two entries in the
    cache, one per modification time, each bound to the bytes of its own
    read. *)
Theorem mtime_change_adds_second_entry
    (w : World) (path : string) (m1 m2 : jsnumber) (d1 d2 : value) :
  fq (this w) = [] ->
  m1 <> m2 ->
  Lodash.has (binBuffer (static w)) false
             (String.append path (Number_toString m1)) = false ->
  Lodash.has (set (binBuffer (static w))
                  (String.append path (Number_toString m1)) d1) false
             (String.append path (Number_toString m2)) = false ->
  (binBuffer_count w < 10)%nat ->
  let w2 := run (load_then_read (path, m1, d1) ++ load_then_read (path, m2, d2)) w in
  queued_reads (since (List.length (trace w)) (trace w2)) = [path; path] /\
  get (binBuffer (static w2)) (String.append path (Number_toString m1)) = Some d1 /\
  get (binBuffer (static w2)) (String.append path (Number_toString m2)) = Some d2 /\
  binBuffer_count w2 = (binBuffer_count w + 2)%nat.
Proof.
  intros Hq Hm H1 H2 Hroom w2.
  set (k1 := String.append path (Number_toString m1)) in *.
  set (k2 := String.append path (Number_toString m2)) in *.
  assert (Hk : k2 <> k1).
  { intros E. apply Hm. symmetry. now apply (binBufferKey_inj_mtime path). }
  unfold binBuffer_count in *.
  pose (w1 := run (load_then_read (path, m1, d1)) w).
  destruct (load_then_read_cached path m1 d1 w Hq) as [_ [Hp1 [Hq1 [Hmiss1 _]]]].
  destruct (Hmiss1 H1) as [Hc1 Ht1]. fold w1 k1 in Hp1, Hq1, Hc1, Ht1.
  rewrite recycled_within in Hc1 by lia.
  assert (H2' : Lodash.has (binBuffer (static w1)) false k2 = false).
  { rewrite Hc1. exact H2. }
  assert (Hlen1 : List.length (keys (binBuffer (static w1))) =
                  S (List.length (keys (binBuffer (static w))))).
  { rewrite Hc1, !keys_length. apply length_set_new.
    now apply Lodash_has_false_own in H1. }
  destruct (load_then_read_cached path m2 d2 w1 Hq1) as [_ [_ [_ [Hmiss2 _]]]].
  destruct (Hmiss2 H2') as [Hc2 Ht2]. fold k2 in Hc2.
  rewrite recycled_within in Hc2 by lia.
  assert (Hw2 : w2 = run (load_then_read (path, m2, d2)) w1).
  { unfold w2, w1. apply run_app. }
  rewrite Hw2. rewrite Hc2. split; [|split; [|split]].
  - rewrite Ht2, Ht1, Hp1, <- !app_assoc, since_app.
    rewrite !queued_reads_app, !queued_reads_field_info. reflexivity.
  - rewrite get_set_other by (intros E; apply Hk; congruence).
    rewrite Hc1. apply get_set_same.
  - apply get_set_same.
  - rewrite keys_length, length_set_new
      by (now apply Lodash_has_false_own in H2').
    rewrite <- keys_length, Hlen1. lia.
Qed.

Lemma mtime_change_adds_second_entry_witness :
  let m1 := mkNumber 1700000000000 (Decimal.D5 Decimal.Nil) in
  let m2 := mkNumber 1700000000000 (Decimal.D2 (Decimal.D5 Decimal.Nil)) in
  let w2 := run (load_then_read ("/tmp/a.pdf", m1, pdf_bytes) ++
                 load_then_read ("/tmp/a.pdf", m2, VBuffer [x25]))
                (fresh_world VNull VNull VNull) in
  queued_reads (since 0 (trace w2)) = ["/tmp/a.pdf"; "/tmp/a.pdf"] /\
  get (binBuffer (static w2)) "/tmp/a.pdf1700000000000.5" = Some pdf_bytes /\
  get (binBuffer (static w2)) "/tmp/a.pdf1700000000000.25" =
    Some (VBuffer [x25]) /\
  binBuffer_count w2 = 2%nat.
Proof.
  apply (mtime_change_adds_second_entry (fresh_world VNull VNull VNull)
           "/tmp/a.pdf"
           (mkNumber 1700000000000 (Decimal.D5 Decimal.Nil))
           (mkNumber 1700000000000 (Decimal.D2 (Decimal.D5 Decimal.Nil)))
           pdf_bytes (VBuffer [x25]));
    try reflexivity.
  - discriminate.
  - vm_compute. lia.
Defined.

(** X3.  The cache key is the bare concatenation of path and modification
    time, so two different files can share a key: when the rendering of
    [c] is that of [a] followed by that of [b], a load of [p ++ a] at time
    [b] made after a completed load of [p] at time [c] hits the cache,
    queues no read and hands the engine what the cache holds under the key
    of the first file: the bytes read for it, when its load missed the
    cache. *)
Theorem cache_key_collision
    (w : World) (p : string) (a b c : jsnumber) (d : value) :
  fq (this w) = [] ->
  Number_toString c = String.append (Number_toString a) (Number_toString b) ->
  let w1 := run (load_then_read (p, c, d)) w in
  let w2 := exec (loadPDF (String.append p (Number_toString a)) (Stats b)) w1 in
  let new := since (List.length (trace w1)) (trace w2) in
  queued_reads new = [] /\
  static w2 = static w1 /\
  parse_calls new =
    [(member (binBuffer (static w1)) (String.append p (Number_toString c)),
      password (this w))] /\
  (Lodash.has (binBuffer (static w)) false
               (String.append p (Number_toString c)) = false ->
   parse_calls new = [(d, password (this w))]).
Proof.
  intros Hq Hc w1 w2 new.
  destruct (load_then_read_cached p c d w Hq) as [Hhas [Hp [_ [Hmiss _]]]].
  fold w1 in Hhas, Hp, Hmiss.
  assert (Hkey : String.append (String.append p (Number_toString a)) (Number_toString b)
                 = String.append p (Number_toString c)).
  { now rewrite append_assoc, Hc. }
  rewrite <- Hkey in Hhas.
  destruct (loadPDF_hit _ b w1 Hhas) as [_ [Hst [_ Ht]]].
  fold w2 in Hst, Ht. rewrite Hkey, Hp in Ht.
  assert (Hnew : parse_calls new =
    [(member (binBuffer (static w1)) (String.append p (Number_toString c)),
      password (this w))]).
  { unfold new. rewrite Ht, since_app, parse_calls_app, parse_calls_field_info.
    reflexivity. }
  split; [|split; [exact Hst|split; [exact Hnew|]]].
  - unfold new. rewrite Ht, since_app, queued_reads_app, queued_reads_field_info.
    reflexivity.
  - intros Hm. rewrite Hnew. destruct (Hmiss Hm) as [Hcache _].
    now rewrite Hcache, member_set_same.
Qed.

Lemma cache_key_collision_witness :
  let w1 := run (load_then_read ("/tmp/a", integer 12, pdf_bytes))
                (fresh_world VNull VNull VNull) in
  let w2 := exec (loadPDF "/tmp/a1" (Stats 2)) w1 in
  parse_calls (since (List.length (trace w1)) (trace w2)) = [(pdf_bytes, VNull)].
Proof.
  destruct (cache_key_collision (fresh_world VNull VNull VNull)
              "/tmp/a" 1%Z 2%Z 12%Z pdf_bytes eq_refl eq_refl)
    as [_ [_ [_ H]]].
  apply H. reflexivity.
Defined.

Lemma readFile_done_success path q d w :
  fq (this w) = path :: q ->
  exec (readFile_done VNull d) w =
  started VUndefined
    (with_cache (set (binBuffer (static w)) (binBufferKey (this w)) d)
       (upd_this (with_fq q) w)).
Proof.
  intros Hq. unfold exec, readFile_done, bind, getThis, modifyThis.
  rewrite Hq. now rewrite processPDFContent_success by reflexivity.
Qed.

Lemma loadPDF_miss path m w :
  Lodash.has (binBuffer (static w)) false
             (String.append path (Number_toString m)) = false ->
  exec (loadPDF path (Stats m)) w = queued path (located path m w).
Proof. intros H. unfold exec. now rewrite loadPDF_eq, H. Qed.

Lemma fq_queued path w : fq (this (queued path w)) = fq (this w) ++ [path].
Proof. reflexivity. Qed.

Lemma binBufferKey_queued' path w :
  binBufferKey (this (queued path w)) = binBufferKey (this w).
Proof. reflexivity. Qed.

Lemma pdfFilePath_queued_located path m q w :
  pdfFilePath (with_fq q (this (queued path (located path m w)))) = Some path.
Proof.
  unfold located. now destruct (processFieldInfoXML (this w)).
Qed.

(** X4.  The callback of a read stores the bytes under the key the instance
    has when the callback runs, not under the key of the load that queued
    the read.  When one instance loads file A and then file B before A's
    read has come back, both loads missing the cache ([_.has] finds neither
    key), A's bytes are cached under B's key and handed to the engine while
    the instance points at B, and A's key is not cached; B's read then
    overwrites the entry and starts a second parse. *)
Theorem overlapping_loads_cache_under_last_key
    (w : World) (pA pB : string) (mA mB : jsnumber) (dA dB : value) :
  fq (this w) = [] ->
  String.append pA (Number_toString mA) <> String.append pB (Number_toString mB) ->
  Lodash.has (binBuffer (static w)) false
             (String.append pA (Number_toString mA)) = false ->
  Lodash.has (binBuffer (static w)) false
             (String.append pB (Number_toString mB)) = false ->
  let keyA := String.append pA (Number_toString mA) in
  let keyB := String.append pB (Number_toString mB) in
  let w3 := run [CallLoadPDF pA (Stats mA); CallLoadPDF pB (Stats mB);
                 ReadFileDone VNull dA] w in
  let w4 := exec (readFile_done VNull dB) w3 in
  (get (binBuffer (static w3)) keyB = Some dA /\
   has (binBuffer (static w3)) keyA = false /\
   pdfFilePath (this w3) = Some pB /\
   fq (this w3) = [pB] /\
   parse_calls (since (List.length (trace w)) (trace w3)) =
     [(dA, password (this w))]) /\
  (get (binBuffer (static w4)) keyB = Some dB /\
   has (binBuffer (static w4)) keyA = false /\
   fq (this w4) = [] /\
   parse_calls (since (List.length (trace w)) (trace w4)) =
     [(dA, password (this w)); (dB, password (this w))]).
Proof.
  intros Hq Hne HA HB keyA keyB w3 w4.
  fold keyA in Hne, HA. fold keyB in Hne, HB.
  pose (wa := queued pA (located pA mA w)).
  pose (wb := queued pB (located pB mB wa)).
  assert (Ha : exec (loadPDF pA (Stats mA)) w = wa) by now apply loadPDF_miss.
  assert (HcA : binBuffer (static wa) = recycled (id (this w)) (binBuffer (static w))).
  { unfold wa. now rewrite binBuffer_queued, static_located, id_located. }
  assert (Hb : exec (loadPDF pB (Stats mB)) wa = wb).
  { apply loadPDF_miss. rewrite HcA. now apply Lodash_has_recycled. }
  assert (HcB : binBuffer (static wb) =
                recycled (id (this w)) (recycled (id (this w)) (binBuffer (static w)))).
  { unfold wb. rewrite binBuffer_queued, static_located, id_located, HcA.
    unfold wa. cbn [queued log upd_this with_cache upd_static this id with_fq].
    now rewrite id_located. }
  assert (HqB : fq (this wb) = [pA; pB]).
  { unfold wb. rewrite fq_queued, fq_located. unfold wa.
    now rewrite fq_queued, fq_located, Hq. }
  assert (HkB : binBufferKey (this wb) = keyB).
  { unfold wb. now rewrite binBufferKey_queued', binBufferKey_located. }
  assert (HpB : password (this wb) = password (this w)).
  { unfold wb. rewrite password_queued, password_located. unfold wa.
    now rewrite password_queued, password_located. }
  assert (HtB : trace wb = trace w ++ field_info_calls pA w ++ [FqPush pA] ++
                           field_info_calls pB wa ++ [FqPush pB]).
  { unfold wb. rewrite trace_queued, trace_located. unfold wa at 1.
    rewrite trace_queued, trace_located, <- !app_assoc. reflexivity. }
  assert (Hw3 : w3 = started VUndefined
                  (with_cache (set (binBuffer (static wb)) keyB dA)
                     (upd_this (with_fq [pB]) wb))).
  { unfold w3. cbn [run step]. rewrite Ha, Hb.
    rewrite (readFile_done_success pA [pB] dA wb HqB). now rewrite HkB. }
  assert (HnoA : has (set (binBuffer (static wb)) keyB dA) keyA = false).
  { rewrite has_set_other by exact Hne. rewrite HcB.
    apply has_recycled_false, has_recycled_false.
    now apply Lodash_has_false_own in HA. }
  assert (Hquiet : forall x, parse_calls (field_info_calls x w) = [] /\
                             parse_calls (field_info_calls x wa) = []).
  { intros x. split; apply parse_calls_field_info. }
  assert (P3 : get (binBuffer (static w3)) keyB = Some dA /\
               has (binBuffer (static w3)) keyA = false /\
               pdfFilePath (this w3) = Some pB /\
               fq (this w3) = [pB] /\
               trace w3 = trace wb ++ [ParsePDFData dA (password (this w))] /\
               binBufferKey (this w3) = keyB /\
               password (this w3) = password (this w)).
  { rewrite Hw3. cbn [started with_cache upd_static upd_this this static trace
                      binBuffer with_binBuffer with_PDFJS with_data with_fq fq
                      pdfFilePath password].
    split; [apply get_set_same|]. split; [exact HnoA|].
    split; [unfold wb; apply pdfFilePath_queued_located|].
    split; [reflexivity|]. split; [|split; [exact HkB | exact HpB]].
    f_equal. f_equal. rewrite HpB. f_equal.
    unfold or_else. cbn [truthy].
    change (binBufferKey (with_fq [pB] (this wb))) with (binBufferKey (this wb)).
    rewrite HkB. apply member_set_same. }
  destruct P3 as [G3 [N3 [F3 [Q3 [T3 [K3 W3]]]]]].
  clear Hw3. clearbody w3.
  split.
  - repeat split; auto.
    rewrite T3, HtB, <- !app_assoc, since_app, !parse_calls_app.
    destruct (Hquiet pA) as [-> _]. destruct (Hquiet pB) as [_ ->]. reflexivity.
  - unfold w4. rewrite (readFile_done_success pB [] dB w3 Q3), K3.
    cbn [started with_cache upd_static upd_this this static trace
         binBuffer with_binBuffer with_PDFJS with_data with_fq fq password].
    split; [apply get_set_same|]. split; [|split; [reflexivity|]].
    + rewrite has_set_other by exact Hne. exact N3.
    + rewrite T3, HtB, <- !app_assoc, since_app, !parse_calls_app.
      destruct (Hquiet pA) as [-> _]. destruct (Hquiet pB) as [_ ->].
      cbn. rewrite W3. do 2 f_equal. f_equal.
      unfold or_else. cbn [truthy].
      change (binBufferKey (with_fq [] (this w3))) with (binBufferKey (this w3)).
      rewrite K3. apply member_set_same.
Qed.

Lemma overlapping_loads_cache_under_last_key_witness :
  let w3 := run [CallLoadPDF "/tmp/a.pdf" (Stats 1700000000000);
                 CallLoadPDF "/tmp/b.pdf" (Stats 1700000000000);
                 ReadFileDone VNull pdf_bytes]
                (fresh_world VNull VNull VNull) in
  get (binBuffer (static w3)) "/tmp/b.pdf1700000000000" = Some pdf_bytes /\
  has (binBuffer (static w3)) "/tmp/a.pdf1700000000000" = false.
Proof.
  destruct (overlapping_loads_cache_under_last_key
              (fresh_world VNull VNull VNull)
              "/tmp/a.pdf" "/tmp/b.pdf" 1700000000000%Z 1700000000000%Z
              pdf_bytes (VBuffer [x25]))
    as [[H1 [H2 _]] _]; try reflexivity.
  - discriminate.
  - split; [exact H1 | exact H2].
Defined.

(* ------------------------------------------------------------------ *)
(** * Failed reads, failed stats *)

Lemma readFile_done_eq path q err d w :
  fq (this w) = path :: q ->
  exec (readFile_done err d) w =
  if truthy err
  then log [Emit "pdfParser_dataError" err VNull]
           (upd_this (with_data VNull) (upd_this (with_fq q) w))
  else started VUndefined
         (with_cache (set (binBuffer (static w)) (binBufferKey (this w)) d)
            (upd_this (with_fq q) w)).
Proof.
  intros Hq. unfold exec, readFile_done, bind, getThis, modifyThis.
  rewrite Hq. destruct (truthy err) eqn:E.
  - now rewrite processPDFContent_error by exact E.
  - now rewrite processPDFContent_success by exact E.
Qed.

(** X5.  A failed read is not remembered.  After a load that missed the
    cache ([_.has] does not find its key) and whose read failed, the key is
    still not found in the cache, of which it is no entry, and nothing was
    handed to the engine; loading the same file again queues a second
    read. *)
Theorem failed_read_is_not_cached
    (w : World) (path : string) (m : jsnumber) (err d : value) :
  fq (this w) = [] ->
  truthy err = true ->
  Lodash.has (binBuffer (static w)) false
             (String.append path (Number_toString m)) = false ->
  let w1 := run [CallLoadPDF path (Stats m); ReadFileDone err d] w in
  let w2 := exec (loadPDF path (Stats m)) w1 in
  Lodash.has (binBuffer (static w1)) false
             (String.append path (Number_toString m)) = false /\
  has (binBuffer (static w1)) (String.append path (Number_toString m)) = false /\
  parse_calls (since (List.length (trace w)) (trace w1)) = [] /\
  fq (this w1) = [] /\
  queued_reads (since (List.length (trace w)) (trace w2)) = [path; path] /\
  fq (this w2) = [path].
Proof.
  intros Hq He Hmiss w1 w2.
  set (key := String.append path (Number_toString m)) in *.
  pose (wa := queued path (located path m w)).
  assert (Hw1 : w1 = log [Emit "pdfParser_dataError" err VNull]
                       (upd_this (with_data VNull) (upd_this (with_fq []) wa))).
  { unfold w1. cbn [run step]. rewrite (loadPDF_miss path m w Hmiss). fold wa.
    rewrite (readFile_done_eq path [] err d wa), He; [reflexivity|].
    unfold wa. now rewrite fq_queued, fq_located, Hq. }
  assert (Hc1 : binBuffer (static w1) = recycled (id (this w)) (binBuffer (static w))).
  { rewrite Hw1. cbn [log upd_this static]. unfold wa.
    now rewrite binBuffer_queued, static_located, id_located. }
  assert (Hh1 : Lodash.has (binBuffer (static w1)) false key = false).
  { rewrite Hc1. now apply Lodash_has_recycled. }
  assert (Ht1 : trace w1 = trace w ++ field_info_calls path w ++
                           [FqPush path; Emit "pdfParser_dataError" err VNull]).
  { rewrite Hw1. cbn [log upd_this trace]. unfold wa.
    rewrite trace_queued, trace_located, <- !app_assoc. reflexivity. }
  assert (Hq1 : fq (this w1) = []) by (rewrite Hw1; reflexivity).
  split; [exact Hh1|].
  split; [now apply Lodash_has_false_own in Hh1|].
  split; [|split; [exact Hq1|]].
  - rewrite Ht1, since_app, parse_calls_app, parse_calls_field_info. reflexivity.
  - unfold w2. rewrite (loadPDF_miss path m w1 Hh1).
    rewrite trace_queued, trace_located, fq_queued, fq_located, Hq1, Ht1.
    split; [|reflexivity].
    rewrite <- !app_assoc, since_app, !queued_reads_app, !queued_reads_field_info.
    reflexivity.
Qed.

Lemma failed_read_is_not_cached_witness :
  let w1 := run refused_read (fresh_world VNull VNull VNull) in
  let w2 := exec (loadPDF "/tmp/a.pdf" (Stats 1700000000000)) w1 in
  has (binBuffer (static w1)) "/tmp/a.pdf1700000000000" = false /\
  queued_reads (since 0 (trace w2)) = ["/tmp/a.pdf"; "/tmp/a.pdf"].
Proof.
  destruct (failed_read_is_not_cached (fresh_world VNull VNull VNull)
              "/tmp/a.pdf" 1700000000000%Z EACCES VUndefined
              eq_refl eq_refl eq_refl)
    as [_ [H1 [_ [_ [H2 _]]]]].
  split; [exact H1 | exact H2].
Defined.

(** X6.  A load whose [fs.statSync] throws fails synchronously with that
    error and emits nothing: no signal, no read queued, nothing handed to
    the engine, cache and result untouched.  The path has been recorded but
    the modification time is still the previous one, so the cache key of the
    instance is the new path followed by the old time (or by "null" on an
    instance that never loaded). *)
Theorem stat_failure_is_synchronous
    (w : World) (path : string) (e : value) :
  let w' := exec (loadPDF path (StatError e)) w in
  loadPDF path (StatError e) w = (Throw e, w') /\
  trace w' = trace w /\
  static w' = static w /\
  fq (this w') = fq (this w) /\
  data (this w') = data (this w) /\
  PDFJS (this w') = PDFJS (this w) /\
  pdfFilePath (this w') = Some path /\
  pdfFileMTime (this w') = pdfFileMTime (this w) /\
  binBufferKey (this w') =
    String.append path (match pdfFileMTime (this w) with
                        | Some m => Number_toString m
                        | None => "null"
                        end).
Proof.
  unfold exec. rewrite loadPDF_stat_error. cbn.
  repeat split. unfold binBufferKey; cbn.
  now destruct (pdfFileMTime (this w)).
Qed.

(* ------------------------------------------------------------------ *)
(** * What engine events leave alone *)

Lemma only_data_differs_refl p : only_data_differs p p.
Proof. apply with_data_same. Qed.

Lemma only_data_differs_with_data v p : only_data_differs p (with_data v p).
Proof. now destruct p. Qed.

Lemma only_data_differs_trans p1 p2 p3 :
  only_data_differs p1 p2 -> only_data_differs p2 p3 -> only_data_differs p1 p3.
Proof.
  unfold only_data_differs. destruct p1, p2, p3; cbn.
  intros H12 H23. inversion H12. inversion H23. now subst.
Qed.

Lemma call_handler_frame h arg w :
  let w' := exec (call_handler h arg) w in
  static w' = static w /\ only_data_differs (this w) (this w').
Proof.
  unfold exec. destruct h; cbn [call_handler].
  - destruct (truthy arg) eqn:E.
    + rewrite onPDFJSParseDataReady_truthy by exact E. cbn.
      split; [reflexivity | apply only_data_differs_with_data].
    + rewrite onPDFJSParseDataReady_falsy by exact E. cbn.
      split; [reflexivity | apply only_data_differs_refl].
  - rewrite onPDFJSParserDataError_eq. cbn.
    split; [reflexivity | apply only_data_differs_with_data].
Qed.

Lemma call_all_frame hs arg : forall w,
  let w' := exec (call_all hs arg) w in
  static w' = static w /\ only_data_differs (this w) (this w').
Proof.
  induction hs as [|h r IH]; intros w; cbn [call_all].
  - split; [reflexivity | apply only_data_differs_refl].
  - pose proof (call_handler_frame h arg w) as [Hs Hd].
    unfold exec, bind in *.
    destruct (call_handler h arg w) as [[[]|e] w1]; cbn [snd] in *.
    + destruct (IH w1) as [Hs' Hd']. split; [congruence|].
      eapply only_data_differs_trans; eassumption.
    + now split.
Qed.

Lemma PDFJS_emit_frame event arg w :
  let w' := exec (PDFJS_emit event arg) w in
  static w' = static w /\ only_data_differs (this w) (this w').
Proof.
  unfold PDFJS_emit, exec, bind, getThis. apply call_all_frame.
Qed.

Lemma only_data_differs_fq p p' : only_data_differs p p' -> fq p' = fq p.
Proof. unfold only_data_differs. intros <-. now destruct p'. Qed.

Lemma engine_events_frame (evs : list (string * value)) : forall w,
  let w' := run (map (fun ev => EngineEmit (fst ev) (snd ev)) evs) w in
  static w' = static w /\ only_data_differs (this w) (this w').
Proof.
  induction evs as [|[e a] r IH]; intros w; cbn [map run step fst snd].
  - split; [reflexivity | apply only_data_differs_refl].
  - destruct (PDFJS_emit_frame e a w) as [Hs Hd].
    destruct (IH (exec (PDFJS_emit e a) w)) as [Hs' Hd'].
    split; [congruence|]. eapply only_data_differs_trans; eassumption.
Qed.

(** The cache and the queue after an invocation and the answer to its
    read. *)
Lemma invocation_cache (i : invocation) (w : World) :
  fq (this w) = [] ->
  (binBuffer_count w <= 11)%nat ->
  let w1 := run (invocation_moves i) w in
  fq (this w1) = [] /\ (binBuffer_count w1 <= 11)%nat.
Proof.
  intros Hq Hc. destruct i as [b|path m err d]; cbn [invocation_moves].
  - cbn [run step]. unfold exec, parseBuffer. rewrite startParsingPDF_eq.
    split; [exact Hq | exact Hc].
  - destruct (Lodash.has (binBuffer (static w)) false
                         (String.append path (Number_toString m)))
      eqn:Hhas.
    + rewrite loadPDF_hit_then_idle by assumption.
      destruct (loadPDF_hit path m w Hhas) as [_ [Hst [Hfq _]]].
      unfold binBuffer_count in *. rewrite Hst. split; congruence.
    + cbn [run step]. rewrite (loadPDF_miss path m w Hhas).
      rewrite (readFile_done_eq path [] err d);
        [|now rewrite fq_queued, fq_located, Hq].
      unfold binBuffer_count in *.
      pose proof (recycled_count (id (this w)) (binBuffer (static w)) Hc) as Hr.
      destruct (truthy err).
      * cbn [log upd_this this static fq with_data with_fq].
        rewrite binBuffer_queued, static_located, id_located.
        split; [reflexivity | lia].
      * cbn [started with_cache upd_static upd_this this static fq with_data
             with_fq with_PDFJS binBuffer with_binBuffer].
        rewrite binBuffer_queued, static_located, id_located.
        split; [reflexivity|].
        rewrite keys_length. rewrite keys_length in Hr.
        eapply Nat.le_trans; [apply length_set_le | lia].
Qed.

(** X7.  As long as loads do not overlap (each read is answered, with
    bytes or with an error, before the next call; engine events may come in
    between), the cache holds at most [#maxBinBufferCount + 1] entries when
    the instance is at rest, and no read is left pending. *)
Theorem cache_within_max_plus_one_at_rest (blocks : list block) :
  forall w : World,
    fq (this w) = [] ->
    (binBuffer_count w <= 11)%nat ->
    let w' := run (flat_map block_moves blocks) w in
    fq (this w') = [] /\ (binBuffer_count w' <= 11)%nat.
Proof.
  induction blocks as [|[i evs] r IH]; intros w Hq Hc; cbn [flat_map].
  - cbn. auto.
  - cbv zeta. rewrite run_app.
    assert (Hb : run (block_moves (i, evs)) w =
                 run (map (fun ev => EngineEmit (fst ev) (snd ev)) evs)
                     (run (invocation_moves i) w)) by apply run_app.
    rewrite Hb.
    destruct (invocation_cache i w Hq Hc) as [Hq1 Hc1].
    destruct (engine_events_frame evs (run (invocation_moves i) w)) as [Hs Hd].
    apply IH.
    + rewrite (only_data_differs_fq _ _ Hd). exact Hq1.
    + unfold binBuffer_count in *. now rewrite Hs.
Qed.

Lemma cache_within_max_plus_one_at_rest_witness :
  let w' := run (flat_map block_moves
                   [(LoadPDF "/tmp/a.pdf" 1700000000000 VNull pdf_bytes,
                     [("pdfjs_parseDataReady", VObj [("Pages", VNum 1)]);
                      ("pdfjs_parseDataReady", VNull)]);
                    (LoadPDF "/tmp/b.pdf" 1700000000000 EACCES VUndefined, []);
                    (ParseBuffer pdf_bytes, [("pdfjs_parseDataError", VStr "bad")])])
                (run (sequential_loads 11) (fresh_world VNull VNull VNull)) in
  fq (this w') = [] /\ (binBuffer_count w' <= 11)%nat.
Proof.
  apply cache_within_max_plus_one_at_rest.
  - reflexivity.
  - vm_compute. lia.
Defined.

(* ------------------------------------------------------------------ *)
(** * Signals after a failure *)

Lemma iter_merged_from_null (d : value) (n : nat) :
  Nat.iter (S n) (merged d) VNull = Nat.iter (S n) (merged d) (VObj []).
Proof. now rewrite !Nat.iter_succ_r. Qed.

(** X8.  The instance does not latch a failed session.  On an instance that
    carries the subscriptions of [n + 1] sessions, an engine error followed
    by the end-of-data marker yields the data-error signals and then as
    many data-ready signals, whose payload is [{formImage: null}]; an error
    followed by a payload starts the result again from that payload alone. *)
Theorem failure_is_not_latched
    (n : nat) (w : World) (detail late : value) :
  sessions_started (S n) w ->
  (truthy late = false ->
   let w' := run [EngineEmit "pdfjs_parseDataError" detail;
                  EngineEmit "pdfjs_parseDataReady" late] w in
   trace w' = trace w ++ repeat (parserError_signal detail) (S n) ++
                         repeat (dataReady_signal VNull) (S n) /\
   data (this w') = VNull) /\
  (truthy late = true ->
   let w' := run [EngineEmit "pdfjs_parseDataError" detail;
                  EngineEmit "pdfjs_parseDataReady" late] w in
   trace w' = trace w ++ repeat (parserError_signal detail) (S n) /\
   exists o, data (this w') = VObj o /\
             forall k, get o k = own_property late k).
Proof.
  intros Hs. split; intros Hl w'; unfold w'; cbn [run step]; unfold exec;
    rewrite (PDFJS_emit_error n detail w Hs); cbn [snd].
  - rewrite (PDFJS_emit_no_more_data (S n) late); [|exact Hs|exact Hl].
    cbn [snd log upd_this trace this data with_data].
    now rewrite <- app_assoc.
  - rewrite (PDFJS_emit_payload (S n) late); [|exact Hs|exact Hl].
    cbn [snd log upd_this trace this data with_data].
    split; [reflexivity|].
    rewrite iter_merged_from_null.
    destruct (iter_merged_obj late n [] wf_nil) as [o [E [_ G]]].
    exists o. split; [exact E|].
    intros k. rewrite G. now destruct (own_property late k).
Qed.

Lemma failure_is_not_latched_witness :
  let w := exec (parseBuffer pdf_bytes) (fresh_world VNull VNull VNull) in
  let w' := run [EngineEmit "pdfjs_parseDataError" (VStr "bad XRef");
                 EngineEmit "pdfjs_parseDataReady" VNull] w in
  trace w' = trace w ++ repeat (parserError_signal (VStr "bad XRef")) 1 ++
                        repeat (dataReady_signal VNull) 1 /\
  data (this w') = VNull.
Proof.
  destruct (failure_is_not_latched 0
              (exec (parseBuffer pdf_bytes) (fresh_world VNull VNull VNull))
              (VStr "bad XRef") VNull eq_refl) as [H _].
  apply H. reflexivity.
Defined.

(* ------------------------------------------------------------------ *)
(** * parseBuffer without bytes, and the entries a load touches *)

Lemma binBufferKey_after_load path m d w :
  fq (this w) = [] ->
  binBufferKey (this (run (load_then_read (path, m, d)) w)) =
  String.append path (Number_toString m).
Proof.
  intros Hq. unfold load_then_read.
  destruct (Lodash.has (binBuffer (static w)) false
                         (String.append path (Number_toString m)))
    eqn:Hhas.
  - rewrite loadPDF_hit_then_idle by assumption.
    destruct (loadPDF_hit path m w Hhas) as [-> _].
    change (binBufferKey (this (started VUndefined (located path m w))))
      with (binBufferKey (this (located path m w))).
    apply binBufferKey_located.
  - cbn [run step]. rewrite (loadPDF_miss path m w Hhas).
    rewrite (readFile_done_success path [] d);
      [|now rewrite fq_queued, fq_located, Hq].
    change (binBufferKey (this (located path m w)) =
            String.append path (Number_toString m)).
    apply binBufferKey_located.
Qed.

(** X9.  [parseBuffer] called without bytes (any falsy argument) falls back
    on the cache entry of the instance's current key: after a completed
    load it hands the engine what the cache holds under the key of the file
    last loaded (the bytes read for it, when the load missed the cache), and
    on an instance that never loaded it looks up the key "0". *)
Theorem parseBuffer_without_bytes_uses_cache (b : value) :
  truthy b = false ->
  (forall (w : World) (path : string) (m : jsnumber) (d : value),
     fq (this w) = [] ->
     let key := String.append path (Number_toString m) in
     let w1 := run (load_then_read (path, m, d)) w in
     let w2 := exec (parseBuffer b) w1 in
     parse_calls (since (List.length (trace w1)) (trace w2)) =
       [(member (binBuffer (static w1)) key, password (this w))] /\
     (Lodash.has (binBuffer (static w)) false key = false ->
      member (binBuffer (static w1)) key = d)) /\
  (forall w : World,
     pdfFilePath (this w) = None -> pdfFileMTime (this w) = None ->
     parse_calls (since (List.length (trace w))
                        (trace (exec (parseBuffer b) w))) =
       [(member (binBuffer (static w)) "0", password (this w))]).
Proof.
  intros Hb. split.
  - intros w path m d Hq key w1 w2.
    destruct (load_then_read_cached path m d w Hq) as [_ [Hp [_ [Hmiss _]]]].
    fold w1 key in Hp, Hmiss.
    pose proof (binBufferKey_after_load path m d w Hq) as Hk. fold w1 key in Hk.
    split.
    + unfold w2, exec, parseBuffer. rewrite startParsingPDF_eq. cbn [snd].
      rewrite trace_started, since_app. unfold or_else. rewrite Hb, Hk, Hp.
      reflexivity.
    + intros Hm. destruct (Hmiss Hm) as [-> _]. apply member_set_same.
  - intros w Hpath Hmt. unfold exec, parseBuffer.
    rewrite startParsingPDF_eq. cbn [snd].
    rewrite trace_started, since_app. unfold or_else, binBufferKey.
    now rewrite Hb, Hpath, Hmt.
Qed.

Lemma parseBuffer_without_bytes_uses_cache_witness :
  let w1 := run (load_then_read ("/tmp/a.pdf", integer 1700000000000, pdf_bytes))
                (fresh_world VNull VNull VNull) in
  parse_calls (since (List.length (trace w1))
                     (trace (exec (parseBuffer VUndefined) w1))) =
    [(member (binBuffer (static w1)) "/tmp/a.pdf1700000000000", VNull)].
Proof.
  destruct (parseBuffer_without_bytes_uses_cache VUndefined eq_refl) as [H _].
  apply (H (fresh_world VNull VNull VNull) "/tmp/a.pdf" 1700000000000%Z pdf_bytes).
  reflexivity.
Defined.

(** X10.  A completed load that missed the cache ([_.has] does not find its
    key) binds its key to the bytes read and touches at most one other
    entry: every other key keeps its value, except the recycled key when
    the cache held more than [#maxBinBufferCount] entries, which is gone. *)
Theorem completed_load_touches_two_keys
    (w : World) (path : string) (m : jsnumber) (d : value) :
  fq (this w) = [] ->
  Lodash.has (binBuffer (static w)) false
             (String.append path (Number_toString m)) = false ->
  let key := String.append path (Number_toString m) in
  let cache := binBuffer (static w) in
  let cache1 := binBuffer (static (run (load_then_read (path, m, d)) w)) in
  get cache1 key = Some d /\
  forall k, k <> key ->
    get cache1 k =
    if ((maxBinBufferCount <? N.of_nat (List.length (keys cache)))%N
        && String.eqb k (victim (id (this w)) cache))%bool
    then None else get cache k.
Proof.
  intros Hq Hmiss key cache cache1.
  destruct (load_then_read_cached path m d w Hq) as [_ [_ [_ [Hm _]]]].
  destruct (Hm Hmiss) as [Hc _]. fold key cache in Hc. fold cache1 in Hc.
  rewrite Hc. split; [apply get_set_same|].
  intros k Hk. rewrite get_set_other by exact Hk.
  unfold recycled.
  destruct (maxBinBufferCount <? N.of_nat (List.length (keys cache)))%N; cbn.
  - apply get_delete.
  - reflexivity.
Qed.

Lemma completed_load_touches_two_keys_witness :
  let w := run (sequential_loads 11) (fresh_world VNull VNull VNull) in
  let cache1 := binBuffer (static (run (load_then_read
                    ("/tmp/new.pdf", integer 1700000000000, pdf_bytes)) w)) in
  get cache1 "/tmp/new.pdf1700000000000" = Some pdf_bytes /\
  get cache1 "/tmp/0.pdf1700000000000" = None /\
  get cache1 "/tmp/1.pdf1700000000000" = Some pdf_bytes.
Proof.
  destruct (completed_load_touches_two_keys
              (run (sequential_loads 11) (fresh_world VNull VNull VNull))
              "/tmp/new.pdf" 1700000000000%Z pdf_bytes eq_refl eq_refl)
    as [H1 H2].
  split; [exact H1|]. split.
  - rewrite H2 by discriminate. reflexivity.
  - rewrite H2 by discriminate. reflexivity.
Defined.

(** X17.  [_.has] reads the cache key as a property path, so a load can hit
    the cache on a key that is no entry of it.  A load whose key is not an
    entry but is found by following its segments (the key of an entry, then
    an index into the bytes cached there) queues no read, recycles nothing,
    leaves the cache as it is and hands [undefined] to the engine.  A file
    without a dot in its path, cached at a whole number of milliseconds and
    loaded again at the same number with a fractional part, is such a
    case. *)
Theorem path_like_key_parses_undefined
    (w : World) (path : string) (m : jsnumber) :
  let key := String.append path (Number_toString m) in
  has (binBuffer (static w)) key = false ->
  Lodash.has (binBuffer (static w)) false key = true ->
  let w' := exec (loadPDF path (Stats m)) w in
  let new := since (List.length (trace w)) (trace w') in
  loadPDF path (Stats m) w = (Normal tt, w') /\
  queued_reads new = [] /\
  fq (this w') = fq (this w) /\
  static w' = static w /\
  parse_calls new = [(VUndefined, password (this w))].
Proof.
  intros key Hown Hgate w' new.
  split; [unfold w', exec; now rewrite loadPDF_eq|].
  destruct (loadPDF_hit path m w Hgate) as [_ [Hst [Hfq Ht]]].
  fold w' key in Hst, Hfq, Ht. unfold new. rewrite Ht, since_app.
  rewrite queued_reads_app, parse_calls_app, queued_reads_field_info,
    parse_calls_field_info.
  unfold member. unfold has in Hown.
  destruct (get (binBuffer (static w)) key); [discriminate|].
  repeat split; auto.
Qed.

Lemma path_like_key_parses_undefined_witness :
  let w := run (load_then_read ("/tmp/report", integer 1700000000000, pdf_bytes))
               (fresh_world VNull VNull VNull) in
  let later := mkNumber 1700000000000 (Decimal.D2 Decimal.Nil) in
  let w' := exec (loadPDF "/tmp/report" (Stats later)) w in
  keys (binBuffer (static w)) = ["/tmp/report1700000000000"] /\
  binBufferKey (this w') = "/tmp/report1700000000000.2" /\
  queued_reads (since (List.length (trace w)) (trace w')) = [] /\
  static w' = static w /\
  parse_calls (since (List.length (trace w)) (trace w')) = [(VUndefined, VNull)].
Proof.
  intros w later w'.
  destruct (path_like_key_parses_undefined w "/tmp/report" later
              eq_refl eq_refl) as [_ [H1 [_ [H2 H3]]]].
  split; [reflexivity|]. split; [reflexivity|].
  split; [exact H1|]. split; [exact H2 | exact H3].
Defined.

(* ------------------------------------------------------------------ *)
(** * What no move changes *)

Lemma keeps_identity_refl w : keeps_identity w w.
Proof.
  repeat split. exists []. split; [now rewrite app_nil_r | constructor].
Qed.

Lemma keeps_identity_trans w1 w2 w3 :
  keeps_identity w1 w2 -> keeps_identity w2 w3 -> keeps_identity w1 w3.
Proof.
  intros [A1 [B1 [C1 [D1 [E1 [F1 [n1 [T1 N1]]]]]]]]
         [A2 [B2 [C2 [D2 [E2 [F2 [n2 [T2 N2]]]]]]]].
  repeat split; try congruence.
  exists (n1 ++ n2). split; [now rewrite T2, T1, app_assoc|].
  intros H. apply Forall_app. split; [now apply N1|].
  apply N2. congruence.
Qed.

Lemma keeps_identity_upd_this f w :
  keeps_identity_fields f -> keeps_identity w (upd_this f w).
Proof.
  intros Hf. destruct (Hf (this w)) as [A [B [C [D E]]]].
  repeat split; auto. exists []. cbn. split; [now rewrite app_nil_r | constructor].
Qed.

Lemma keeps_identity_with_cache o w : keeps_identity w (with_cache o w).
Proof.
  repeat split. exists []. cbn. split; [now rewrite app_nil_r | constructor].
Qed.

Lemma keeps_identity_log cs w :
  (processFieldInfoXML (this w) = false -> no_field_info cs) ->
  keeps_identity w (log cs w).
Proof. intros H. repeat split. exists cs. split; [reflexivity | exact H]. Qed.

Lemma keeps_identity_started b w : keeps_identity w (started b w).
Proof.
  repeat split. eexists. split; [reflexivity|]. intros _. repeat constructor.
Qed.

Lemma keeps_identity_located path m w : keeps_identity w (located path m w).
Proof.
  unfold located. destruct (processFieldInfoXML (this w)) eqn:E.
  - eapply keeps_identity_trans; [|apply keeps_identity_log].
    + apply keeps_identity_upd_this. now intros p.
    + cbn. congruence.
  - apply keeps_identity_upd_this. now intros p.
Qed.

Lemma keeps_identity_step i w : keeps_identity w (exec (step i) w).
Proof.
  destruct i as [path [m|e]|b|err d|event arg]; cbn [step].
  - unfold exec. rewrite loadPDF_eq. cbn [snd].
    eapply keeps_identity_trans; [apply keeps_identity_located|].
    destruct (Lodash.has _ _ _).
    + apply keeps_identity_started.
    + unfold queued.
      eapply keeps_identity_trans;
        [|apply keeps_identity_log; intros _; repeat constructor].
      eapply keeps_identity_trans;
        [|apply keeps_identity_upd_this; now intros p].
      apply keeps_identity_with_cache.
  - unfold exec. rewrite loadPDF_stat_error. cbn [snd].
    apply keeps_identity_upd_this. now intros p.
  - unfold exec, parseBuffer. rewrite startParsingPDF_eq.
    apply keeps_identity_started.
  - destruct (fq (this w)) as [|path q] eqn:Hq.
    + unfold exec, readFile_done, bind, getThis. rewrite Hq.
      apply keeps_identity_refl.
    + rewrite (readFile_done_eq path q err d w Hq).
      destruct (truthy err).
      * eapply keeps_identity_trans;
          [|apply keeps_identity_log; intros _; repeat constructor].
        eapply keeps_identity_trans;
          [|apply keeps_identity_upd_this; now intros p].
        apply keeps_identity_upd_this. now intros p.
      * eapply keeps_identity_trans; [|apply keeps_identity_started].
        eapply keeps_identity_trans; [|apply keeps_identity_with_cache].
        apply keeps_identity_upd_this. now intros p.
  - unfold PDFJS_emit, exec, bind, getThis.
    generalize (handlers_for event (listeners (PDFJS (this w)))).
    intros hs. revert w. induction hs as [|h r IH]; intros w; cbn [call_all].
    + apply keeps_identity_refl.
    + assert (Hh : exists w1, call_handler h arg w = (Normal tt, w1) /\
                              keeps_identity w w1).
      { destruct h; cbn [call_handler].
        - destruct (truthy arg) eqn:E.
          + rewrite onPDFJSParseDataReady_truthy by exact E.
            eexists. split; [reflexivity|].
            apply keeps_identity_upd_this. now intros p.
          + rewrite onPDFJSParseDataReady_falsy by exact E.
            eexists. split; [reflexivity|].
            apply keeps_identity_log. intros _. repeat constructor.
        - rewrite onPDFJSParserDataError_eq.
          eexists. split; [reflexivity|].
          eapply keeps_identity_trans;
            [|apply keeps_identity_log; intros _; repeat constructor].
          apply keeps_identity_upd_this. now intros p. }
      destruct Hh as [w1 [E1 K1]]. unfold bind. rewrite E1.
      eapply keeps_identity_trans; [exact K1 | apply IH].
Qed.

Lemma keeps_identity_run moves : forall w, keeps_identity w (run moves w).
Proof.
  induction moves as [|i r IH]; intros w; cbn [run].
  - apply keeps_identity_refl.
  - eapply keeps_identity_trans; [apply keeps_identity_step | apply IH].
Qed.

(** X11.  Whatever is done with an instance after its construction, its id,
    password and context stay those the constructor gave it, the id counter
    of the class is not touched, the field-info flag stays off and
    [tryLoadFieldInfoXML] is never called on the engine. *)
Theorem identity_is_immutable
    (ctx needRaw pwd : value) (s : Static) (moves : list input) :
  let w := run moves (new_world ctx needRaw pwd s) in
  id (this w) = nextId s /\
  password (this w) = pwd /\
  context (this w) = ctx /\
  needRawText (PDFJS (this w)) = needRaw /\
  processFieldInfoXML (this w) = false /\
  nextId (static w) = Number_increment (nextId s) /\
  no_field_info (trace w).
Proof.
  intros w.
  destruct (keeps_identity_run moves (new_world ctx needRaw pwd s))
    as [A [B [C [D [E [F [new [T N]]]]]]]].
  fold w in A, B, C, D, E, F, T.
  repeat split; try assumption.
  rewrite T. cbn. apply N. reflexivity.
Qed.

(* ------------------------------------------------------------------ *)
(** * destroy *)

Ltac run_lifecycle :=
  unfold Lifecycle.bindL, Lifecycle.retL, Lifecycle.liftM, Lifecycle.note,
    Lifecycle.use_PDFJS; cbn.

(** While [#PDFJS] is set, the methods over the instance are the methods
    above. *)
Lemma Lifecycle_startParsingPDF_live b w t :
  Lifecycle.startParsingPDF b (Lifecycle.mkInstance w false t) =
  (Normal tt, Lifecycle.mkInstance (started b w) false t).
Proof.
  unfold Lifecycle.startParsingPDF. run_lifecycle.
  unfold started, subscribed, subscriptions, modifyThis, PDFJS_on, record,
    upd_this, log; cbn.
  now rewrite <- app_assoc.
Qed.

Arguments Lifecycle.startParsingPDF : simpl never.
Arguments Lifecycle.processBinaryCache : simpl never.
Arguments Lifecycle.processPDFContent : simpl never.

Lemma Lifecycle_processBinaryCache_live w t :
  Lifecycle.processBinaryCache (Lifecycle.mkInstance w false t) =
  Lifecycle.liftM processBinaryCache (Lifecycle.mkInstance w false t).
Proof.
  unfold Lifecycle.liftM at 1. cbn [Lifecycle.world].
  unfold Lifecycle.processBinaryCache. run_lifecycle.
  destruct (has_binBuffer (static w) (this w)) eqn:Hhas.
  - rewrite processBinaryCache_hit by exact Hhas.
    unfold getThis, getStatic. cbn. rewrite ?Hhas.
    now rewrite Lifecycle_startParsingPDF_live.
  - rewrite processBinaryCache_miss by exact Hhas.
    unfold getThis, getStatic. cbn. rewrite ?Hhas.
    unfold recycled, victim.
    destruct (maxBinBufferCount <? N.of_nat (List.length (keys (binBuffer (static w)))))%N;
      cbn.
    + unfold with_cache, upd_static, with_binBuffer, modifyStatic; cbn.
      do 4 f_equal. apply delete_set.
    + now rewrite with_cache_same.
Qed.

Lemma Lifecycle_processPDFContent_live err d w t :
  Lifecycle.processPDFContent err d (Lifecycle.mkInstance w false t) =
  Lifecycle.liftM (processPDFContent err d) (Lifecycle.mkInstance w false t).
Proof.
  unfold Lifecycle.liftM at 1. cbn [Lifecycle.world].
  unfold Lifecycle.processPDFContent.
  destruct (truthy err) eqn:E.
  - rewrite processPDFContent_error by exact E. reflexivity.
  - rewrite processPDFContent_success by exact E. run_lifecycle.
    unfold getThis, modifyStatic. cbn.
    now rewrite Lifecycle_startParsingPDF_live.
Qed.

(** While [#PDFJS] is set, the methods over the instance are the methods
    above. *)
Lemma Lifecycle_methods_live (w : World) (t : list Lifecycle.teardown_call) :
  (forall b,
     Lifecycle.parseBuffer b (Lifecycle.mkInstance w false t) =
     Lifecycle.liftM (parseBuffer b) (Lifecycle.mkInstance w false t)) /\
  (forall path st,
     Lifecycle.loadPDF path st (Lifecycle.mkInstance w false t) =
     Lifecycle.liftM (loadPDF path st) (Lifecycle.mkInstance w false t)) /\
  (forall err d,
     Lifecycle.readFile_done err d (Lifecycle.mkInstance w false t) =
     Lifecycle.liftM (readFile_done err d) (Lifecycle.mkInstance w false t)).
Proof.
  split; [|split].
  - intros b. unfold Lifecycle.parseBuffer, parseBuffer.
    rewrite Lifecycle_startParsingPDF_live.
    unfold Lifecycle.liftM. cbn. now rewrite startParsingPDF_eq.
  - intros path [m|e]; [|reflexivity].
    unfold Lifecycle.loadPDF, loadPDF. run_lifecycle.
    unfold bind, modifyThis, fs_statSync, ret, getThis. cbn.
    destruct (processFieldInfoXML (this w)); cbn;
      rewrite Lifecycle_processBinaryCache_live;
      unfold Lifecycle.liftM; cbn;
      match goal with
      | |- context [processBinaryCache ?x] =>
          destruct (processBinaryCache x) as [[[|]|e] w']
      end; reflexivity.
  - intros err d. unfold Lifecycle.readFile_done, readFile_done.
    run_lifecycle. unfold bind, getThis. cbn.
    destruct (fq (this w)) as [|path q]; [reflexivity|].
    unfold modifyThis. cbn.
    rewrite Lifecycle_processPDFContent_live. reflexivity.
Qed.

Arguments Lifecycle.destroy : simpl never.

Lemma has_method_truthy v m : has_method v m = true -> truthy v = true.
Proof. now destruct v. Qed.

Lemma Lifecycle_destroy_eq (w : World) (nul : bool)
    (t : list Lifecycle.teardown_call) (outcome : completion unit) :
  let ctx := context (this w) in
  let cleared :=
    upd_this (fun p => with_processFieldInfoXML false
                         (with_data VNull
                            (with_pdfFileMTime None
                               (with_pdfFilePath None
                                  (if truthy ctx then with_context VNull p else p)))))
             w in
  let t1 := t ++ [Lifecycle.RemoveAllListeners] ++
            (if truthy ctx then [Lifecycle.ContextDestroy ctx] else []) in
  context_released ctx outcome = true ->
  Lifecycle.destroy outcome (Lifecycle.mkInstance w nul t) =
  if nul
  then (Throw Lifecycle.TypeError, Lifecycle.mkInstance cleared true t1)
  else (Normal tt,
        Lifecycle.mkInstance cleared true (t1 ++ [Lifecycle.PDFJSDestroy])).
Proof.
  intros ctx cleared t1 H. subst ctx cleared t1.
  unfold context_released in H.
  unfold Lifecycle.destroy, Lifecycle.context_destroy. run_lifecycle.
  unfold getThis, modifyThis, upd_this. cbn.
  destruct (truthy (context (this w))) eqn:Et; cbn in H |- *.
  - apply andb_true_iff in H. destruct H as [Hm Ho]. rewrite Hm.
    destruct outcome as [[]|e]; [|discriminate].
    destruct nul; cbn; rewrite <- ?app_assoc; reflexivity.
  - destruct nul; cbn; rewrite <- ?app_assoc; reflexivity.
Qed.

(** A context that is set and has no [destroy] method stops [destroy]
    before anything is cleared. *)
Lemma Lifecycle_destroy_no_method (w : World) (nul : bool)
    (t : list Lifecycle.teardown_call) (outcome : completion unit) :
  truthy (context (this w)) = true ->
  has_method (context (this w)) "destroy" = false ->
  Lifecycle.destroy outcome (Lifecycle.mkInstance w nul t) =
  (Throw Lifecycle.not_a_function,
   Lifecycle.mkInstance w nul (t ++ [Lifecycle.RemoveAllListeners])).
Proof.
  intros Ht Hm.
  unfold Lifecycle.destroy, Lifecycle.context_destroy. run_lifecycle.
  unfold getThis. cbn. rewrite Ht. cbn. rewrite Hm. cbn.
  now destruct w.
Qed.

(** So does a [destroy] method of the context that throws. *)
Lemma Lifecycle_destroy_method_throws (w : World) (nul : bool)
    (t : list Lifecycle.teardown_call) (e : value) :
  has_method (context (this w)) "destroy" = true ->
  Lifecycle.destroy (Throw e) (Lifecycle.mkInstance w nul t) =
  (Throw e,
   Lifecycle.mkInstance w nul
     (t ++ [Lifecycle.RemoveAllListeners;
            Lifecycle.ContextDestroy (context (this w))])).
Proof.
  intros Hm. pose proof (has_method_truthy _ _ Hm) as Ht.
  unfold Lifecycle.destroy, Lifecycle.context_destroy. run_lifecycle.
  unfold getThis. cbn. rewrite Ht. cbn. rewrite Hm. cbn.
  rewrite <- app_assoc. now destruct w.
Qed.

(** X12.  [destroy] on an instance whose engine is set, and whose context
    (if one is set) has a [destroy] method that returns, completes and
    clears the path, the modification time and the result, drops the
    context after calling its [destroy] once, calls the engine's [destroy]
    once and sets [#PDFJS] to null.  It emits nothing, leaves the read
    queue as it is and does not touch the statics: the entries of the
    shared cache outlive the instance.  On a context that is set and has no
    [destroy] method, and on one whose [destroy] throws, [destroy] throws
    after having removed the listeners: no field is cleared, the context
    and the engine are kept and the engine's [destroy] is not called. *)
Theorem destroy_releases_instance
    (w : World) (t : list Lifecycle.teardown_call) (outcome : completion unit) :
  let i := Lifecycle.mkInstance w false t in
  let i' := Lifecycle.execL (Lifecycle.destroy outcome) i in
  let w' := Lifecycle.world i' in
  (context_released (context (this w)) outcome = true ->
   Lifecycle.destroy outcome i = (Normal tt, i') /\
   Lifecycle.PDFJS_null i' = true /\
   pdfFilePath (this w') = None /\
   pdfFileMTime (this w') = None /\
   data (this w') = VNull /\
   truthy (context (this w')) = false /\
   processFieldInfoXML (this w') = false /\
   id (this w') = id (this w) /\
   fq (this w') = fq (this w) /\
   static w' = static w /\
   trace w' = trace w /\
   Lifecycle.teardown i' =
     t ++ [Lifecycle.RemoveAllListeners] ++
     (if truthy (context (this w))
      then [Lifecycle.ContextDestroy (context (this w))] else []) ++
     [Lifecycle.PDFJSDestroy]) /\
  (truthy (context (this w)) = true ->
   has_method (context (this w)) "destroy" = false ->
   Lifecycle.destroy outcome i = (Throw Lifecycle.not_a_function, i') /\
   w' = w /\
   Lifecycle.PDFJS_null i' = false /\
   Lifecycle.teardown i' = t ++ [Lifecycle.RemoveAllListeners]) /\
  (forall e,
   has_method (context (this w)) "destroy" = true ->
   outcome = Throw e ->
   Lifecycle.destroy outcome i = (Throw e, i') /\
   w' = w /\
   Lifecycle.PDFJS_null i' = false /\
   Lifecycle.teardown i' =
     t ++ [Lifecycle.RemoveAllListeners;
           Lifecycle.ContextDestroy (context (this w))]).
Proof.
  intros i i' w'. subst w' i' i. unfold Lifecycle.execL.
  split; [|split].
  - intros H. rewrite Lifecycle_destroy_eq by exact H. cbn.
    repeat split;
      try (destruct (truthy (context (this w))) eqn:E; cbn; auto; fail).
    rewrite <- !app_assoc. reflexivity.
  - intros Ht Hm. rewrite Lifecycle_destroy_no_method by assumption.
    cbn. repeat split.
  - intros e Hm ->. rewrite Lifecycle_destroy_method_throws by assumption.
    cbn. repeat split.
Qed.

Lemma destroy_releases_instance_witness :
  let served := fresh_world service_context VNull VNull in
  let stray := fresh_world (VStr "ctx") VNull VNull in
  Lifecycle.destroy (Normal tt) (Lifecycle.alive served) =
    (Normal tt,
     Lifecycle.execL (Lifecycle.destroy (Normal tt)) (Lifecycle.alive served)) /\
  Lifecycle.destroy (Normal tt) (Lifecycle.alive stray) =
    (Throw Lifecycle.not_a_function,
     Lifecycle.execL (Lifecycle.destroy (Normal tt)) (Lifecycle.alive stray)) /\
  Lifecycle.destroy (Throw (VStr "busy")) (Lifecycle.alive served) =
    (Throw (VStr "busy"),
     Lifecycle.execL (Lifecycle.destroy (Throw (VStr "busy")))
                     (Lifecycle.alive served)).
Proof.
  intros served stray. split; [|split].
  - destruct (destroy_releases_instance served [] (Normal tt)) as [H _].
    destruct (H eq_refl) as [E _]. exact E.
  - destruct (destroy_releases_instance stray [] (Normal tt)) as [_ [H _]].
    destruct (H eq_refl eq_refl) as [E _]. exact E.
  - destruct (destroy_releases_instance served [] (Throw (VStr "busy")))
      as [_ [_ H]].
    destruct (H (VStr "busy") eq_refl eq_refl) as [E _]. exact E.
Defined.

(** X13.  A second [destroy] fails.  After a [destroy] that completed, it
    removes the listeners again and clears the fields, calls neither the
    context's nor the engine's [destroy] a second time, and raises a
    [TypeError] on the null [#PDFJS].  After a [destroy] stopped by a
    context without a [destroy] method, it is stopped the same way, with
    the engine still set. *)
Theorem destroy_twice_throws
    (w : World) (t : list Lifecycle.teardown_call)
    (outcome outcome' : completion unit) :
  let i1 := Lifecycle.execL (Lifecycle.destroy outcome)
                            (Lifecycle.mkInstance w false t) in
  let i2 := Lifecycle.execL (Lifecycle.destroy outcome') i1 in
  (context_released (context (this w)) outcome = true ->
   Lifecycle.destroy outcome' i1 = (Throw Lifecycle.TypeError, i2) /\
   Lifecycle.teardown i2 =
     Lifecycle.teardown i1 ++ [Lifecycle.RemoveAllListeners] /\
   Lifecycle.PDFJS_null i2 = true /\
   static (Lifecycle.world i2) = static w /\
   trace (Lifecycle.world i2) = trace w) /\
  (truthy (context (this w)) = true ->
   has_method (context (this w)) "destroy" = false ->
   Lifecycle.destroy outcome' i1 = (Throw Lifecycle.not_a_function, i2) /\
   Lifecycle.teardown i2 =
     t ++ [Lifecycle.RemoveAllListeners; Lifecycle.RemoveAllListeners] /\
   Lifecycle.PDFJS_null i2 = false /\
   Lifecycle.world i2 = w).
Proof.
  intros i1 i2. subst i2 i1. unfold Lifecycle.execL. split.
  - intros H. rewrite Lifecycle_destroy_eq by exact H. cbn [snd].
    rewrite Lifecycle_destroy_eq.
    + cbn. destruct (truthy (context (this w))) eqn:E; cbn; rewrite ?E; cbn;
        repeat split; rewrite ?app_nil_r; reflexivity.
    + cbn. destruct (truthy (context (this w))) eqn:E; cbn; [reflexivity|].
      unfold context_released. now rewrite E.
  - intros Ht Hm. rewrite Lifecycle_destroy_no_method by assumption. cbn [snd].
    rewrite Lifecycle_destroy_no_method by assumption. cbn.
    repeat split. now rewrite <- app_assoc.
Qed.

Lemma destroy_twice_throws_witness :
  let served := Lifecycle.alive (fresh_world service_context VNull VNull) in
  let stray := Lifecycle.alive (fresh_world (VStr "ctx") VNull VNull) in
  fst (Lifecycle.destroy (Normal tt)
         (Lifecycle.execL (Lifecycle.destroy (Normal tt)) served)) =
    Throw Lifecycle.TypeError /\
  fst (Lifecycle.destroy (Normal tt)
         (Lifecycle.execL (Lifecycle.destroy (Normal tt)) stray)) =
    Throw Lifecycle.not_a_function.
Proof.
  intros served stray. split.
  - destruct (destroy_twice_throws (fresh_world service_context VNull VNull) []
                (Normal tt) (Normal tt)) as [H _].
    destruct (H eq_refl) as [E _]. unfold served, Lifecycle.alive.
    now rewrite E.
  - destruct (destroy_twice_throws (fresh_world (VStr "ctx") VNull VNull) []
                (Normal tt) (Normal tt)) as [_ H].
    destruct (H eq_refl eq_refl) as [E _]. unfold stray, Lifecycle.alive.
    now rewrite E.
Defined.

Lemma Lifecycle_startParsingPDF_released b w t :
  Lifecycle.startParsingPDF b (Lifecycle.mkInstance w true t) =
  (Throw Lifecycle.TypeError,
   Lifecycle.mkInstance (upd_this (with_data (VObj [])) w) true t).
Proof. reflexivity. Qed.

(** X14.  Use after [destroy].  On an instance that [destroy] has released
    (its context, if one was set, had a [destroy] method that returned)
    [parseBuffer] raises a [TypeError] after having set the result to the
    empty object: nothing is handed to the engine, no handler is
    subscribed, no signal is emitted and the cache is untouched.  A
    [loadPDF] whose key [_.has] finds in the cache fails the same way,
    while one whose key is not found still queues its read. *)
Theorem use_after_destroy
    (w : World) (t : list Lifecycle.teardown_call) (outcome : completion unit) :
  context_released (context (this w)) outcome = true ->
  let i1 := Lifecycle.execL (Lifecycle.destroy outcome)
                            (Lifecycle.mkInstance w false t) in
  (forall b,
     let i2 := Lifecycle.execL (Lifecycle.parseBuffer b) i1 in
     Lifecycle.parseBuffer b i1 = (Throw Lifecycle.TypeError, i2) /\
     trace (Lifecycle.world i2) = trace w /\
     static (Lifecycle.world i2) = static w /\
     PDFJS (this (Lifecycle.world i2)) = PDFJS (this w) /\
     data (this (Lifecycle.world i2)) = VObj []) /\
  (forall path m,
     Lodash.has (binBuffer (static w)) false
                (String.append path (Number_toString m)) = true ->
     let i2 := Lifecycle.execL (Lifecycle.loadPDF path (Stats m)) i1 in
     Lifecycle.loadPDF path (Stats m) i1 = (Throw Lifecycle.TypeError, i2) /\
     trace (Lifecycle.world i2) = trace w /\
     fq (this (Lifecycle.world i2)) = fq (this w) /\
     static (Lifecycle.world i2) = static w /\
     data (this (Lifecycle.world i2)) = VObj []) /\
  (forall path m,
     Lodash.has (binBuffer (static w)) false
                (String.append path (Number_toString m)) = false ->
     let i2 := Lifecycle.execL (Lifecycle.loadPDF path (Stats m)) i1 in
     Lifecycle.loadPDF path (Stats m) i1 = (Normal tt, i2) /\
     trace (Lifecycle.world i2) = trace w ++ [FqPush path] /\
     fq (this (Lifecycle.world i2)) = fq (this w) ++ [path]).
Proof.
  intros Hrel i1.
  assert (Hi1 : exists w1 t1,
             i1 = Lifecycle.mkInstance w1 true t1 /\
             trace w1 = trace w /\ static w1 = static w /\
             PDFJS (this w1) = PDFJS (this w) /\ fq (this w1) = fq (this w) /\
             id (this w1) = id (this w) /\
             processFieldInfoXML (this w1) = false).
  { unfold i1, Lifecycle.execL. rewrite Lifecycle_destroy_eq by exact Hrel.
    cbn [snd]. eexists _, _. split; [reflexivity|]. cbn.
    destruct (truthy (context (this w))); repeat split. }
  destruct Hi1 as [w1 [t1 [-> [Ht [Hs [Hj [Hq [Hid Hx]]]]]]]].
  split; [|split].
  - intros b. unfold Lifecycle.execL, Lifecycle.parseBuffer.
    rewrite Lifecycle_startParsingPDF_released. cbn.
    repeat split; assumption.
  - intros path m Hhas.
    unfold Lifecycle.execL, Lifecycle.loadPDF, Lifecycle.processBinaryCache.
    run_lifecycle. unfold modifyThis, fs_statSync, ret, getThis, getStatic. cbn.
    rewrite Hx. cbn. unfold has_binBuffer. cbn. rewrite Hs, Hhas.
    rewrite Lifecycle_startParsingPDF_released. cbn.
    repeat split; assumption.
  - intros path m Hhas.
    unfold Lifecycle.execL, Lifecycle.loadPDF, Lifecycle.processBinaryCache.
    run_lifecycle. unfold modifyThis, fs_statSync, ret, getThis, getStatic. cbn.
    rewrite Hx. cbn. unfold has_binBuffer. cbn. rewrite Hs, Hhas.
    destruct (maxBinBufferCount <? N.of_nat (List.length (keys (binBuffer (static w)))))%N;
      cbn; unfold modifyStatic, fq_push, bind, modifyThis, record; cbn;
      rewrite Ht, Hq; repeat split.
Qed.

Lemma use_after_destroy_witness :
  let w := run (load_then_read ("/tmp/a.pdf", integer 1700000000000, pdf_bytes))
               (fresh_world service_context VNull VNull) in
  let i1 := Lifecycle.execL (Lifecycle.destroy (Normal tt)) (Lifecycle.alive w) in
  fst (Lifecycle.loadPDF "/tmp/a.pdf" (Stats 1700000000000) i1) =
    Throw Lifecycle.TypeError /\
  fst (Lifecycle.loadPDF "/tmp/b.pdf" (Stats 1700000000000) i1) = Normal tt.
Proof.
  intros w i1.
  destruct (use_after_destroy w [] (Normal tt) eq_refl) as [_ [Hhit Hmiss]].
  split.
  - destruct (Hhit "/tmp/a.pdf" 1700000000000%Z eq_refl) as [E _].
    unfold i1, Lifecycle.alive. now rewrite E.
  - destruct (Hmiss "/tmp/b.pdf" 1700000000000%Z eq_refl) as [E _].
    unfold i1, Lifecycle.alive. now rewrite E.
Defined.

(** X15.  A read still pending when the instance is destroyed comes back
    to a cleared instance (one that [destroy] has released: its context, if
    one was set, had a [destroy] method that returned).  If it succeeded,
    its bytes are stored in the shared cache under the key "0" (the sum of
    the null path and the null time) and the callback then raises a
    [TypeError] without handing anything to the engine; if it failed, the
    data-error signal is emitted as usual with the raw error.  After a
    [destroy] stopped by a context without a [destroy] method nothing was
    cleared, and the read completes as on an instance never destroyed: its
    bytes are cached under the key of the instance. *)
Theorem read_completing_after_destroy
    (w : World) (t : list Lifecycle.teardown_call) (outcome : completion unit)
    (path : string) (q : list string) (err d : value) :
  fq (this w) = path :: q ->
  let i1 := Lifecycle.execL (Lifecycle.destroy outcome)
                            (Lifecycle.mkInstance w false t) in
  let i2 := Lifecycle.execL (Lifecycle.readFile_done err d) i1 in
  let w2 := Lifecycle.world i2 in
  (context_released (context (this w)) outcome = true ->
   fq (this w2) = q /\
   if truthy err
   then Lifecycle.readFile_done err d i1 = (Normal tt, i2) /\
        trace w2 = trace w ++ [Emit "pdfParser_dataError" err VNull] /\
        static w2 = static w
   else Lifecycle.readFile_done err d i1 = (Throw Lifecycle.TypeError, i2) /\
        trace w2 = trace w /\
        binBuffer (static w2) = set (binBuffer (static w)) "0" d /\
        get (binBuffer (static w2)) "0" = Some d /\
        data (this w2) = VObj []) /\
  (truthy (context (this w)) = true ->
   has_method (context (this w)) "destroy" = false ->
   truthy err = false ->
   Lifecycle.readFile_done err d i1 = (Normal tt, i2) /\
   w2 = exec (readFile_done err d) w /\
   binBuffer (static w2) =
     set (binBuffer (static w)) (binBufferKey (this w)) d).
Proof.
  intros Hq i1 i2 w2. split.
  - intros Hrel.
    unfold w2, i2, i1, Lifecycle.execL.
    rewrite Lifecycle_destroy_eq by exact Hrel. cbn [snd].
    unfold Lifecycle.readFile_done. run_lifecycle.
    unfold getThis, modifyThis. cbn.
    assert (Hq' : fq (if truthy (context (this w))
                      then with_context VNull (this w) else this w) = path :: q).
    { now destruct (truthy (context (this w))). }
    rewrite Hq'. cbn.
    unfold Lifecycle.processPDFContent.
    destruct (truthy err) eqn:E.
    + run_lifecycle. unfold modifyThis, emit, bind, getThis, record. cbn.
      repeat split.
    + run_lifecycle. unfold getThis, modifyStatic. cbn.
      rewrite Lifecycle_startParsingPDF_released. cbn.
      repeat split. apply get_set_same.
  - intros Ht Hm He.
    assert (Hi1 : i1 = Lifecycle.mkInstance w false
                         (t ++ [Lifecycle.RemoveAllListeners])).
    { unfold i1, Lifecycle.execL.
      now rewrite Lifecycle_destroy_no_method by assumption. }
    pose proof (readFile_done_eq path q err d w Hq) as Hdone.
    rewrite He in Hdone.
    assert (Hi2 : Lifecycle.readFile_done err d i1 =
                  (Normal tt,
                   Lifecycle.mkInstance (exec (readFile_done err d) w) false
                     (t ++ [Lifecycle.RemoveAllListeners]))).
    { rewrite Hi1.
      destruct (Lifecycle_methods_live w (t ++ [Lifecycle.RemoveAllListeners]))
        as [_ [_ Hlive]].
      rewrite Hlive. unfold Lifecycle.liftM. cbn [Lifecycle.world].
      unfold exec. unfold readFile_done, bind, getThis, modifyThis.
      rewrite Hq. rewrite processPDFContent_success by exact He.
      reflexivity. }
    unfold w2, i2, Lifecycle.execL. rewrite Hi2. cbn [snd Lifecycle.world].
    split; [reflexivity|]. split; [reflexivity|].
    rewrite Hdone. reflexivity.
Qed.

Lemma read_completing_after_destroy_witness :
  let w := exec (loadPDF "/tmp/a.pdf" (Stats 1700000000000))
                (fresh_world VNull VNull VNull) in
  let i1 := Lifecycle.execL (Lifecycle.destroy (Normal tt)) (Lifecycle.alive w) in
  let i2 := Lifecycle.execL (Lifecycle.readFile_done VNull pdf_bytes) i1 in
  keys (binBuffer (static (Lifecycle.world i2))) = ["0"] /\
  get (binBuffer (static (Lifecycle.world i2))) "0" = Some pdf_bytes.
Proof.
  intros w i1 i2.
  destruct (read_completing_after_destroy w [] (Normal tt)
              "/tmp/a.pdf" [] VNull pdf_bytes eq_refl) as [H _].
  destruct (H eq_refl) as [_ [_ [_ [Hc [Hg _]]]]].
  unfold i2, i1, Lifecycle.alive.
  split; [now rewrite Hc | exact Hg].
Defined.

(* ------------------------------------------------------------------ *)
(** * The calls the class makes *)

Lemma extends_refl w : extends_by_class_calls w w.
Proof. exists []. split; [now rewrite app_nil_r | constructor]. Qed.

Lemma extends_trans w1 w2 w3 :
  extends_by_class_calls w1 w2 -> extends_by_class_calls w2 w3 ->
  extends_by_class_calls w1 w3.
Proof.
  intros [n1 [T1 F1]] [n2 [T2 F2]]. exists (n1 ++ n2).
  split; [now rewrite T2, T1, app_assoc | now apply Forall_app].
Qed.

Lemma extends_same_trace w w' : trace w' = trace w -> extends_by_class_calls w w'.
Proof. intros H. exists []. split; [now rewrite app_nil_r | constructor]. Qed.

Lemma extends_log cs w : Forall class_call cs -> extends_by_class_calls w (log cs w).
Proof. intros H. exists cs. now split. Qed.

Lemma extends_started b w : extends_by_class_calls w (started b w).
Proof. eexists. split; [reflexivity|]. repeat constructor. Qed.

Lemma extends_located path m w : extends_by_class_calls w (located path m w).
Proof.
  exists (field_info_calls path w). split; [apply trace_located|].
  unfold field_info_calls. destruct (processFieldInfoXML (this w)); repeat constructor.
Qed.

Lemma extends_call_all hs arg : forall w,
  extends_by_class_calls w (exec (call_all hs arg) w).
Proof.
  induction hs as [|h r IH]; intros w; cbn [call_all].
  - apply extends_refl.
  - assert (Hh : exists w1, call_handler h arg w = (Normal tt, w1) /\
                            extends_by_class_calls w w1).
    { destruct h; cbn [call_handler].
      - destruct (truthy arg) eqn:E.
        + rewrite onPDFJSParseDataReady_truthy by exact E.
          eexists. split; [reflexivity | now apply extends_same_trace].
        + rewrite onPDFJSParseDataReady_falsy by exact E.
          eexists. split; [reflexivity|]. apply extends_log. repeat constructor.
      - rewrite onPDFJSParserDataError_eq.
        eexists. split; [reflexivity|].
        eapply extends_trans; [|apply extends_log; repeat constructor].
        now apply extends_same_trace. }
    destruct Hh as [w1 [E1 K1]]. unfold exec, bind. rewrite E1.
    eapply extends_trans; [exact K1 | apply IH].
Qed.

Lemma extends_step i w : extends_by_class_calls w (exec (step i) w).
Proof.
  destruct i as [path [m|e]|b|err d|event arg]; cbn [step].
  - unfold exec. rewrite loadPDF_eq. cbn [snd].
    eapply extends_trans; [apply extends_located|].
    destruct (Lodash.has _ _ _); [apply extends_started|].
    eexists. split; [apply trace_queued|]. repeat constructor.
  - unfold exec. rewrite loadPDF_stat_error. now apply extends_same_trace.
  - unfold exec, parseBuffer. rewrite startParsingPDF_eq. apply extends_started.
  - destruct (fq (this w)) as [|path q] eqn:Hq.
    + unfold exec, readFile_done, bind, getThis. rewrite Hq. apply extends_refl.
    + rewrite (readFile_done_eq path q err d w Hq).
      destruct (truthy err) eqn:E.
      * eexists. split; [reflexivity|]. repeat constructor. exact E.
      * eexists. split; [reflexivity|]. repeat constructor.
  - unfold PDFJS_emit, exec, bind, getThis. apply extends_call_all.
Qed.

Lemma extends_run moves : forall w, extends_by_class_calls w (run moves w).
Proof.
  induction moves as [|i r IH]; intros w; cbn [run].
  - apply extends_refl.
  - eapply extends_trans; [apply extends_step | apply IH].
Qed.

(** X16.  Whatever the moves, the instance emits only the two signals:
    every data-ready carries [{formImage: r}] where [r] is the result the
    [data] getter returns at that time; every data-error is emitted on a
    null result and carries either [{parserError: d}] for an engine error
    [d] or the raw error of a failed read. *)
Theorem signals_have_three_shapes (moves : list input) (w : World) :
  let new := since (List.length (trace w)) (trace (run moves w)) in
  Forall class_call new /\
  forall event payload seen, In (Emit event payload seen) new ->
    (event = "pdfParser_dataReady" /\ payload = VObj [("formImage", seen)]) \/
    (event = "pdfParser_dataError" /\ seen = VNull /\
     (truthy payload = true)).
Proof.
  intros new.
  destruct (extends_run moves w) as [n [T F]].
  assert (Hnew : new = n) by (unfold new; now rewrite T, since_app).
  rewrite Hnew. split; [exact F|].
  intros event payload seen Hin.
  rewrite Forall_forall in F. specialize (F _ Hin).
  inversion F; subst.
  - left. split; reflexivity.
  - right. repeat split.
  - right. repeat split. assumption.
Qed.

(* ------------------------------------------------------------------ *)
(** * The cache stays a well-formed object *)

Lemma wf_recycled (i : N) (o : object value) : wf o -> wf (recycled i o).
Proof.
  intros H. unfold recycled.
  destruct (maxBinBufferCount <? N.of_nat (List.length (keys o)))%N;
    [now apply wf_delete | exact H].
Qed.

Lemma wf_cache_step i w :
  wf (binBuffer (static w)) -> wf (binBuffer (static (exec (step i) w))).
Proof.
  intros H. destruct i as [path [m|e]|b|err d|event arg]; cbn [step].
  - unfold exec. rewrite loadPDF_eq. cbn [snd].
    destruct (Lodash.has _ _ _).
    + cbn. now rewrite static_located.
    + rewrite binBuffer_queued, static_located. now apply wf_recycled.
  - exact H.
  - unfold exec, parseBuffer. now rewrite startParsingPDF_eq.
  - destruct (fq (this w)) as [|path q] eqn:Hq.
    + unfold exec, readFile_done, bind, getThis. now rewrite Hq.
    + rewrite (readFile_done_eq path q err d w Hq).
      destruct (truthy err); [exact H|]. cbn. now apply wf_set.
  - destruct (PDFJS_emit_frame event arg w) as [Hs _]. now rewrite Hs.
Qed.

Lemma wf_cache_run moves : forall w,
  wf (binBuffer (static w)) -> wf (binBuffer (static (run moves w))).
Proof.
  induction moves as [|i r IH]; intros w H; cbn [run]; [exact H|].
  apply IH. now apply wf_cache_step.
Qed.

Lemma name_identifies_instance_witness :
  id (fst (new_PDFParser VNull VNull VNull static_init)) =
  id (fst (new_PDFParser (VStr "ctx") VNull (VStr "secret") static_init)).
Proof.
  apply (proj1 (name_identifies_instance _ _)). reflexivity.
Defined.

Lemma signals_have_three_shapes_witness :
  let w := fresh_world VNull VNull VNull in
  let new := since (List.length (trace w))
                   (trace (run (CallParseBuffer pdf_bytes ::
                                engine_moves payloads_a1_b2_a3 NoMoreData) w)) in
  ("pdfParser_dataReady" = "pdfParser_dataReady" /\
   VObj [("formImage", result_a3_b2)] = VObj [("formImage", result_a3_b2)]) \/
  ("pdfParser_dataReady" = "pdfParser_dataError" /\ result_a3_b2 = VNull /\
   truthy (VObj [("formImage", result_a3_b2)]) = true).
Proof.
  intros w new.
  destruct (signals_have_three_shapes
              (CallParseBuffer pdf_bytes :: engine_moves payloads_a1_b2_a3 NoMoreData)
              w) as [_ H].
  apply (H "pdfParser_dataReady" (VObj [("formImage", result_a3_b2)]) result_a3_b2).
  vm_compute. right. left. reflexivity.
Defined.
